(** * Shallow embedding of [scraper_247_python.py]

    The class [ContinuousWillhabenScraper] is embedded as state-passing
    functions over a record holding the object's fields together with the
    observable history of the run (requests, sleeps, progress messages).

    Conventions.
    - A Python [str] is modelled by the bytes of its UTF-8 encoding
      ([string]).  Substring tests, [startswith] and concatenation agree on
      code points and on UTF-8 bytes.  The regular-expression classes [\d]
      and [\s], and the white space of [str.strip], are taken on the ASCII
      range.
    - The collaborators the module does not implement (HTTP session, markup
      parser, random source, wall clock, [str.lower], the caller that may
      invoke [stop_scraping] while the loop is suspended) are the fields of
      the record [Env]. *)

From Stdlib Require Import ZArith Ascii String DecimalString.
From stdpp Require Import base list gmap sets strings.

Local Open Scope string_scope.
Local Open Scope Z_scope.
Local Open Scope list_scope.
Set Warnings "-clear-no-such-hyp".

(** ** Strings *)

Module Str.

(** The double quote, spelled by its code, for CSS selectors. *)
Definition dq : string := String (ascii_of_nat 34) EmptyString.

(** [str(n)] for an integer. *)
Definition of_Z (n : Z) : string := NilZero.string_of_int (Z.to_int n).

(** [s.startswith(p)]. *)
Fixpoint startswith (p s : string) : bool :=
  match p, s with
  | EmptyString, _ => true
  | String a p', String b s' => if Ascii.eqb a b then startswith p' s' else false
  | String _ _, EmptyString => false
  end.

(** [needle in hay]. *)
Fixpoint contains (needle hay : string) : bool :=
  if startswith needle hay then true
  else match hay with
       | EmptyString => false
       | String _ hay' => contains needle hay'
       end.

(** The first [n] bytes of [s]. *)
Fixpoint take (n : nat) (s : string) : string :=
  match n, s with
  | S k, String c s' => String c (take k s')
  | _, _ => EmptyString
  end.

Fixpoint filter (p : ascii -> bool) (s : string) : string :=
  match s with
  | EmptyString => EmptyString
  | String c s' => if p c then String c (filter p s') else filter p s'
  end.

Fixpoint forallb (p : ascii -> bool) (s : string) : bool :=
  match s with
  | EmptyString => true
  | String c s' => p c && forallb p s'
  end.

Definition is_digit (c : ascii) : bool :=
  let n := nat_of_ascii c in (48 <=? n)%nat && (n <=? 57)%nat.

(** ASCII members of [\s]: tab, LF, VT, FF, CR, FS, GS, RS, US, space. *)
Definition is_space (c : ascii) : bool :=
  let n := nat_of_ascii c in
  ((9 <=? n)%nat && (n <=? 13)%nat) || ((28 <=? n)%nat && (n <=? 32)%nat).

Definition is_char (a c : ascii) : bool := Ascii.eqb a c.

Definition digit_value (c : ascii) : Z := Z.of_nat (nat_of_ascii c) - 48.

(** Value of a string of decimal digits, most significant first. *)
Fixpoint decimal_acc (acc : Z) (s : string) : Z :=
  match s with
  | EmptyString => acc
  | String c s' => decimal_acc (10 * acc + digit_value c) s'
  end.

Definition decimal (s : string) : Z := decimal_acc 0 s.

End Str.

(** ** Exceptions *)

Inductive Outcome (A : Type) : Type :=
| Ok (a : A)
| Raise (e : string).
Arguments Ok {A} a.
Arguments Raise {A} e.

(** [int(s)] for a string [s] made of decimal digits only, as every caller
    here passes.  It raises [ValueError] on the empty string, and on more than
    [lim] digits when the interpreter's [int_max_str_digits] limit is set
    ([None]: no limit). *)
Definition py_int (lim : option nat) (s : string) : Outcome Z :=
  match s with
  | EmptyString => Raise "ValueError"
  | _ =>
      match lim with
      | Some n => if (n <? String.length s)%nat then Raise "ValueError" else Ok (Str.decimal s)
      | None => Ok (Str.decimal s)
      end
  end.

(** ** Regular expressions

    A backtracking matcher with the priorities of Python's [re]: the left
    alternative first, greedy quantifiers try the longer match first. *)

Module Re.

Inductive regex : Type :=
| Eps
| Chr (p : ascii -> bool)
| Cat (r1 r2 : regex)
| Alt (r1 r2 : regex)
| Opt (r : regex)
| Star (p : ascii -> bool)
| Group (r : regex).

(** [r{n}] and [r{0,n}], then [r{m,n}]. *)
Fixpoint exactly (r : regex) (n : nat) : regex :=
  match n with
  | O => Eps
  | S k => Cat r (exactly r k)
  end.

Fixpoint upto (r : regex) (n : nat) : regex :=
  match n with
  | O => Eps
  | S k => Opt (Cat r (upto r k))
  end.

Definition rep (r : regex) (m n : nat) : regex := Cat (exactly r m) (upto r (n - m)).

Definition lit (s : string) : regex :=
  (fix go s := match s with
               | EmptyString => Eps
               | String c s' => Cat (Chr (Str.is_char c)) (go s')
               end) s.

Fixpoint has_group (r : regex) : bool :=
  match r with
  | Eps | Chr _ | Star _ => false
  | Cat r1 r2 | Alt r1 r2 => has_group r1 || has_group r2
  | Opt r => has_group r
  | Group _ => true
  end.

Section Matcher.
Context {A : Type}.

(** Greedy [p*]: the longest run first, giving back one byte at a time. *)
Fixpoint star (p : ascii -> bool) (s : string) (k : string -> option A) : option A :=
  match s with
  | String c s' =>
      if p c then
        match star p s' k with
        | Some x => Some x
        | None => k s
        end
      else k s
  | EmptyString => k s
  end.

(** [run r s g k]: match [r] at the start of [s]; [g] is what group 1 has
    captured so far; [k] receives the unread rest and the capture. *)
Fixpoint run (r : regex) (s : string) (g : option string)
         (k : string -> option string -> option A) : option A :=
  match r with
  | Eps => k s g
  | Chr p =>
      match s with
      | String c s' => if p c then k s' g else None
      | EmptyString => None
      end
  | Cat r1 r2 => run r1 s g (fun s1 g1 => run r2 s1 g1 k)
  | Alt r1 r2 =>
      match run r1 s g k with
      | Some x => Some x
      | None => run r2 s g k
      end
  | Opt r1 =>
      match run r1 s g k with
      | Some x => Some x
      | None => k s g
      end
  | Star p => star p s (fun s1 => k s1 g)
  | Group r1 =>
      run r1 s g
          (fun s1 _ => k s1 (Some (Str.take (String.length s - String.length s1) s)))
  end.
End Matcher.

(** A match at the start of [s]: the matched text and group 1. *)
Record found : Type := { whole : string; group1 : option string }.

Definition match_here (r : regex) (s : string) : option found :=
  run r s None
      (fun rest g =>
         Some {| whole := Str.take (String.length s - String.length rest) s;
                 group1 := g |}).

(** [re.search(r, s)]: the leftmost position with a match. *)
Fixpoint search (r : regex) (s : string) : option found :=
  match match_here r s with
  | Some m => Some m
  | None =>
      match s with
      | EmptyString => None
      | String _ s' => search r s'
      end
  end.

(** What [re.findall] lists for one match: group 1 when the pattern has a
    group (the empty string if it took no part), else the whole match. *)
Definition item (r : regex) (m : found) : string :=
  if has_group r then default "" (group1 m) else whole m.

(** [re.findall(r, s)]: non-overlapping matches, left to right.  [skip]
    counts the bytes of the previous match still to step over. *)
Fixpoint findall_from (r : regex) (skip : nat) (s : string) : list string :=
  match skip with
  | S k =>
      match s with
      | EmptyString => []
      | String _ s' => findall_from r k s'
      end
  | O =>
      match match_here r s with
      | Some m =>
          item r m ::
            match s with
            | EmptyString => []
            | String _ s' => findall_from r (Nat.pred (String.length (whole m))) s'
            end
      | None =>
          match s with
          | EmptyString => []
          | String _ s' => findall_from r O s'
          end
      end
  end.

Definition findall (r : regex) (s : string) : list string := findall_from r O s.

(** [re.sub(r'[...]', '', s)] for a one-character class: delete its members. *)
Definition sub_class_empty (p : ascii -> bool) (s : string) : string :=
  Str.filter (fun c => negb (p c)) s.

End Re.

(** ** Phone numbers (lines 286-296) *)

Definition digit : Re.regex := Re.Chr Str.is_digit.
Definition digit19 : Re.regex :=
  Re.Chr (fun c => Str.is_digit c && negb (Str.is_char "0" c)).
Definition space_or_hyphen (c : ascii) : bool := Str.is_space c || Str.is_char "-" c.
Definition sep : Re.regex := Re.Opt (Re.Chr space_or_hyphen).

(** [(\+43|0043)[\s\-]?[1-9]\d{1,4}[\s\-]?\d{3,8}] *)
Definition phone_pattern_at : Re.regex :=
  Re.Cat (Re.Group (Re.Alt (Re.lit "+43") (Re.lit "0043")))
    (Re.Cat sep (Re.Cat digit19 (Re.Cat (Re.rep digit 1 4) (Re.Cat sep (Re.rep digit 3 8))))).

(** [0[1-9]\d{1,4}[\s\-]?\d{3,8}] *)
Definition phone_pattern_national : Re.regex :=
  Re.Cat (Re.lit "0")
    (Re.Cat digit19 (Re.Cat (Re.rep digit 1 4) (Re.Cat sep (Re.rep digit 3 8)))).

Definition phone_patterns : list Re.regex := [phone_pattern_at; phone_pattern_national].

Fixpoint extract_phone_loop (patterns : list Re.regex) (html : string) : option string :=
  match patterns with
  | [] => None
  | pattern :: rest =>
      match Re.findall pattern html with
      | m0 :: _ => Some (Re.sub_class_empty space_or_hyphen m0)
      | [] => extract_phone_loop rest html
      end
  end.

Definition extract_phone_number (html : string) : option string :=
  extract_phone_loop phone_patterns html.



(** ** The parsed document

    [BeautifulSoup(html, 'html.parser')] is seen through the three operations
    the module uses: [select], [get_text] and, on an element, [get_text] and
    [get('href')]. *)

Record Tag : Type := {
  tag_text : string;          (* element.get_text() *)
  tag_href : option string    (* the href attribute, if present *)
}.

Record Soup : Type := {
  select : string -> list Tag;   (* soup.select(selector), in document order *)
  get_text : string              (* soup.get_text() *)
}.

Definition select_one (soup : Soup) (selector : string) : option Tag :=
  head (select soup selector).

(** [link.get('href', '')] *)
Definition get_href (link : Tag) : string := default "" (tag_href link).

Module Strip.
Definition is_empty (s : string) : bool :=
  match s with EmptyString => true | _ => false end.

Fixpoint lstrip (s : string) : string :=
  match s with
  | String c s' => if Str.is_space c then lstrip s' else s
  | EmptyString => EmptyString
  end.

Fixpoint rstrip (s : string) : string :=
  match s with
  | String c s' =>
      let r := rstrip s' in
      if Str.is_space c && is_empty r then EmptyString else String c r
  | EmptyString => EmptyString
  end.

(** [s.strip()] *)
Definition strip (s : string) : string := rstrip (lstrip s).
End Strip.

(** ** Field extractors (lines 239-284) *)

Definition title_selectors : list string :=
  [ "[data-testid=" +:+ Str.dq +:+ "ad-detail-ad-title" +:+ Str.dq +:+ "] h1";
    ".AdDetailTitle"; "h1" ].

Definition price_selectors : list string :=
  [ "[data-testid=" +:+ Str.dq +:+ "ad-detail-ad-price" +:+ Str.dq +:+ "] span";
    ".AdDetailPrice"; ".price-value" ].

Definition area_selectors : list string :=
  [ "[data-testid=" +:+ Str.dq +:+ "ad-detail-ad-properties" +:+ Str.dq +:+ "]";
    ".AdDetailProperties" ].

Definition location_selectors : list string :=
  [ "[data-testid=" +:+ Str.dq +:+ "ad-detail-ad-location" +:+ Str.dq +:+ "]";
    ".AdDetailLocation" ].

Definition description_selectors : list string :=
  [ "[data-testid=" +:+ Str.dq +:+ "ad-detail-ad-description" +:+ Str.dq +:+ "] p";
    ".AdDescription-description" ].

(** The loop shared by [extract_title], [extract_location] and
    [extract_description]: the stripped text of the first selector that
    selects an element. *)
Fixpoint first_text (soup : Soup) (selectors : list string) (dflt : string) : string :=
  match selectors with
  | [] => dflt
  | selector :: rest =>
      match select_one soup selector with
      | Some element => Strip.strip (tag_text element)
      | None => first_text soup rest dflt
      end
  end.

Definition extract_title (soup : Soup) : string :=
  first_text soup title_selectors "Unknown Title".

Definition extract_location (soup : Soup) : string :=
  first_text soup location_selectors "Unknown Location".

Definition extract_description (soup : Soup) : string :=
  first_text soup description_selectors "".

(** [re.sub(r'[^\d]', '', text)] *)
Definition digits_only (text : string) : string :=
  Re.sub_class_empty (fun c => negb (Str.is_digit c)) text.

Fixpoint extract_price_loop (lim : option nat) (soup : Soup) (selectors : list string) : Z :=
  match selectors with
  | [] => 0
  | selector :: rest =>
      match select_one soup selector with
      | Some element =>
          let price_text := digits_only (tag_text element) in
          match py_int lim price_text with
          | Ok n => n
          | Raise _ => extract_price_loop lim soup rest     (* except ValueError: continue *)
          end
      | None => extract_price_loop lim soup rest
      end
  end.

Definition extract_price (lim : option nat) (soup : Soup) : Z :=
  extract_price_loop lim soup price_selectors.

(** [(\d+)\s*m²] with [re.IGNORECASE]; the superscript two is the two bytes
    194, 178 of its UTF-8 encoding. *)
Definition superscript_two : string :=
  String (ascii_of_nat 194) (String (ascii_of_nat 178) EmptyString).

Definition area_pattern : Re.regex :=
  Re.Cat (Re.Group (Re.Cat digit (Re.Star Str.is_digit)))
    (Re.Cat (Re.Star Str.is_space)
       (Re.Cat (Re.Chr (fun c => Str.is_char "m" c || Str.is_char "M" c))
          (Re.lit superscript_two))).

(** [int(match.group(1))] is outside any [try] of [extract_area]: its
    [ValueError] leaves the function. *)
Fixpoint extract_area_loop (lim : option nat) (soup : Soup) (selectors : list string)
  : Outcome Z :=
  match selectors with
  | [] => Ok 0
  | selector :: rest =>
      match select_one soup selector with
      | Some element =>
          match Re.search area_pattern (tag_text element) with
          | Some m => py_int lim (default "" (Re.group1 m))
          | None => extract_area_loop lim soup rest
          end
      | None => extract_area_loop lim soup rest
      end
  end.

Definition extract_area (lim : option nat) (soup : Soup) : Outcome Z :=
  extract_area_loop lim soup area_selectors.

(** ** Listing discovery (lines 157-172) *)

Definition origin : string := "https://www.willhaben.at".
Definition listing_path : string := "/iad/immobilien/d/".

Definition link_selectors : list string :=
  [ "a[href*=" +:+ Str.dq +:+ "/iad/immobilien/d/" +:+ Str.dq +:+ "]";
    "a[data-testid*=" +:+ Str.dq +:+ "result-item" +:+ Str.dq +:+ "]";
    ".result-item a" ].

(** The body of the inner loop: one anchor. *)
Definition add_link (listing_urls : gset string) (link : Tag) : gset string :=
  let href := get_href link in
  if Str.contains listing_path href then
    let href := if Str.startswith "/" href then origin +:+ href else href in
    listing_urls ∪ {[ href ]}
  else listing_urls.

Definition add_links (listing_urls : gset string) (links : list Tag) : gset string :=
  foldl add_link listing_urls links.

(** The set [listing_urls] when the loop over [link_selectors] ends. *)
Definition discover (soup : Soup) : gset string :=
  foldl (fun urls selector => add_links urls (select soup selector)) ∅ link_selectors.

(** ** True division and [round] (line 218)

    [price / area] on two integers is the binary64 number nearest to the
    exact quotient (ties to even), or [OverflowError]; [round] of a float is
    the nearest integer, ties to even.  Both are given here for a dividend
    [>= 0] and a divisor [> 0], the only operands line 218 can see. *)

Module Float.

(** The integer nearest to [n / d], ties to even ([d > 0]). *)
Definition round_half_even (n d : Z) : Z :=
  let q := n / d in
  let r := n mod d in
  if 2 * r <? d then q
  else if d <? 2 * r then q + 1
  else if Z.even q then q else q + 1.

(** A finite binary64 value [mant * 2 ^ expo]. *)
Record float : Type := { mant : Z; expo : Z }.

Definition scaled_num (p e : Z) : Z := if e <? 0 then p * 2 ^ (- e) else p.
Definition scaled_den (a e : Z) : Z := if e <? 0 then a else a * 2 ^ e.

Definition true_div (p a : Z) : Outcome float :=
  if p =? 0 then Ok {| mant := 0; expo := 0 |}
  else
    let e0 := Z.log2 p - Z.log2 a - 53 in
    (* the quotient scaled by 2^-e0 lies between 2^52 and 2^54 *)
    let e1 := if 2 ^ 53 * scaled_den a e0 <=? scaled_num p e0 then e0 + 1 else e0 in
    let e := Z.max e1 (-1074) in
    let m := round_half_even (scaled_num p e) (scaled_den a e) in
    if (971 <? e) || ((e =? 971) && (2 ^ 53 <=? m))
    then Raise "OverflowError"
    else Ok {| mant := m; expo := e |}.

(** [round(x)] *)
Definition round (x : float) : Z :=
  if expo x <? 0 then round_half_even (mant x) (2 ^ (- expo x))
  else mant x * 2 ^ expo x.

End Float.

(** [round(price / area) if area > 0 else 0] *)
Definition eur_per_m2_of (price area : Z) : Outcome Z :=
  if 0 <? area then
    match Float.true_div price area with
    | Ok x => Ok (Float.round x)
    | Raise e => Raise e
    end
  else Ok 0.


(** ** Data model *)

(** The dictionary returned by [extract_listing_details] (lines 220-232). *)
Record Listing : Type := {
  title : string;
  price : Z;
  area : Z;
  location : string;
  url : string;
  description : string;
  phoneNumber : option string;
  category : string;
  region : string;
  eur_per_m2 : Z;
  scraped_at : string
}.

(** [self.user_agents] and [self.categories] (lines 21-33); the dictionary is
    kept as the list of its items, in insertion order. *)
Definition user_agents : list string :=
  [ "Mozilla/5.0 (Windows NT 10.0; Win64; x64) AppleWebKit/537.36 (KHTML, like Gecko) Chrome/120.0.0.0 Safari/537.36";
    "Mozilla/5.0 (Macintosh; Intel Mac OS X 10_15_7) AppleWebKit/537.36 (KHTML, like Gecko) Chrome/120.0.0.0 Safari/537.36";
    "Mozilla/5.0 (X11; Linux x86_64) AppleWebKit/537.36 (KHTML, like Gecko) Chrome/120.0.0.0 Safari/537.36" ].

Definition categories : list (string * string) :=
  [ ("eigentumswohnung-wien",
     "https://www.willhaben.at/iad/immobilien/eigentumswohnung/eigentumswohnung-angebote?areaId=900&areaId=903&rows=25&SELLER_TYPE=PRIVATE&keyword=Privatverkauf");
    ("eigentumswohnung-niederoesterreich",
     "https://www.willhaben.at/iad/immobilien/eigentumswohnung/eigentumswohnung-angebote?areaId=904&rows=25&SELLER_TYPE=PRIVATE&keyword=Privatverkauf");
    ("grundstueck-wien",
     "https://www.willhaben.at/iad/immobilien/grundstueck/grundstueck-angebote?areaId=900&areaId=903&rows=25&SELLER_TYPE=PRIVATE&keyword=Privatverkauf");
    ("grundstueck-niederoesterreich",
     "https://www.willhaben.at/iad/immobilien/grundstueck/grundstueck-angebote?areaId=904&rows=25&SELLER_TYPE=PRIVATE&keyword=Privatverkauf") ].

Definition category_keys : list string := categories.*1.

(** [private_keywords] (lines 208-211). *)
Definition private_keywords : list string :=
  [ "privatverkauf"; "privat verkauf"; "von privat";
    "privater verkäufer"; "doppelmarkler"; "ohne makler" ].


(** [any(keyword in text_content for keyword in private_keywords)] *)
Definition is_private (text_content : string) : bool :=
  existsb (fun keyword => Str.contains keyword text_content) private_keywords.

Definition region_of (category_name : string) : string :=
  if Str.contains "wien" category_name then "wien" else "niederoesterreich".

Definition listing_category_of (category_name : string) : string :=
  if Str.contains "eigentumswohnung" category_name then "eigentumswohnung" else "grundstueck".

(** ** The environment *)

Record Response : Type := {
  status : Z;                (* response.status *)
  text : Outcome string      (* await response.text() *)
}.

Record Env : Type := {
  (** [self.session.get(url, ...)] issued after [n] suspensions of the task *)
  session_get : nat -> string -> Outcome Response;
  (** [BeautifulSoup(html, 'html.parser')] *)
  BeautifulSoup : string -> Soup;
  (** the [k]-th number handed out by [random] *)
  rand : nat -> nat;
  (** the draws that fix the order in which a set with these elements is
      iterated (Python leaves that order open) *)
  set_order : list string -> nat -> nat;
  (** [datetime.now().isoformat()] after [n] suspensions *)
  now_isoformat : nat -> string;
  (** [str.lower] *)
  str_lower : string -> string;
  (** [sys.get_int_max_str_digits()], [None] when there is no limit *)
  int_max_str_digits : option nat;
  (** whether the owner of the scraper calls [stop_scraping] while the task
      is suspended for the [n]-th time *)
  stop_called : nat -> bool
}.

(** ** The observable history *)

Inductive Kind : Type := SearchPage | DetailPage.

(** The messages passed to [progress_callback], by the line that builds
    them. [MsgFound] carries the title, of which the text shows the first
    50 characters. *)
Inductive Msg : Type :=
| MsgAlreadyRunning                                   (* line 42 *)
| MsgStarted                                          (* line 46 *)
| MsgCycle (cycle : Z)                                (* line 64 *)
| MsgPause (minutes : Z)                              (* line 78 *)
| MsgCycleComplete (minutes : Z)                      (* line 83 *)
| MsgScan (category_name : string)                    (* line 92 *)
| MsgPage (page : Z) (count : nat) (category_name : string)   (* line 103 *)
| MsgFound (title : string) (price : Z)               (* line 112 *)
| MsgRateLimit                                        (* line 141 *)
| MsgHttpError (status : Z) (url : string)            (* line 145 *)
| MsgRequestError (e : string).                       (* line 149 *)

Inductive Event : Type :=
| Progress (m : Msg)
| Sleep (seconds : Z)
| Get (k : Kind) (url user_agent : string)
| StopCalled.

(** The fields of the scraper object ([session] apart), and the world
    around it: suspensions passed, random numbers drawn, events so far
    (newest first). *)
Record State : Type := {
  is_running : bool;
  current_cycle : Z;
  found_listings : list Listing;
  awaits : nat;
  draws : nat;
  history : list Event
}.

(** [__init__] *)
Definition init : State :=
  {| is_running := false; current_cycle := 0; found_listings := [];
     awaits := 0; draws := 0; history := [] |}.

Definition set_running (b : bool) (st : State) : State :=
  {| is_running := b; current_cycle := current_cycle st;
     found_listings := found_listings st; awaits := awaits st;
     draws := draws st; history := history st |}.

Definition next_cycle (st : State) : State :=
  {| is_running := is_running st; current_cycle := current_cycle st + 1;
     found_listings := found_listings st; awaits := awaits st;
     draws := draws st; history := history st |}.

Definition append_listing (l : Listing) (st : State) : State :=
  {| is_running := is_running st; current_cycle := current_cycle st;
     found_listings := found_listings st ++ [l]; awaits := awaits st;
     draws := draws st; history := history st |}.

Definition next_await (st : State) : State :=
  {| is_running := is_running st; current_cycle := current_cycle st;
     found_listings := found_listings st; awaits := S (awaits st);
     draws := draws st; history := history st |}.

Definition skip_draws (n : nat) (st : State) : State :=
  {| is_running := is_running st; current_cycle := current_cycle st;
     found_listings := found_listings st; awaits := awaits st;
     draws := (draws st + n)%nat; history := history st |}.

Definition record (e : Event) (st : State) : State :=
  {| is_running := is_running st; current_cycle := current_cycle st;
     found_listings := found_listings st; awaits := awaits st;
     draws := draws st; history := e :: history st |}.

(** ** Control surface (lines 298-312) *)

Definition stop_scraping (st : State) : State := set_running false st.

Record Status : Type := {
  status_is_running : bool;
  status_current_cycle : Z;
  status_total_found : nat
}.

Definition get_status (st : State) : Status :=
  {| status_is_running := is_running st;
     status_current_cycle := current_cycle st;
     status_total_found := length (found_listings st) |}.

(** [l[start:]] for any integer [start]. *)
Definition slice_from {A : Type} (start : Z) (l : list A) : list A :=
  let n := Z.of_nat (length l) in
  let i := if start <? 0 then Z.max 0 (n + start) else Z.min start n in
  drop (Z.to_nat i) l.

(** [self.found_listings[-limit:] if self.found_listings else []] *)
Definition get_recent_listings (limit : Z) (st : State) : list Listing :=
  match found_listings st with
  | [] => []
  | _ :: _ => slice_from (- limit) (found_listings st)
  end.

(** ** Shuffling *)

(** [x[i], x[j] = x[j], x[i]] *)
Definition swap {A : Type} (i j : nat) (l : list A) : list A :=
  match l !! i, l !! j with
  | Some a, Some b => <[i := b]> (<[j := a]> l)
  | _, _ => l
  end.

(** [random.shuffle]: for [i] from [len(x) - 1] down to [1], swap [x[i]]
    with [x[j]], [j] drawn below [i + 1].  [r k] is the [k]-th draw. *)
Fixpoint shuffle_steps {A : Type} (r : nat -> nat) (k i : nat) (l : list A) : list A :=
  match i with
  | O => l
  | S i' => shuffle_steps r (S k) i' (swap i (r k mod (i + 1)) l)
  end.

Definition shuffle_by {A : Type} (r : nat -> nat) (l : list A) : list A :=
  shuffle_steps r 0 (length l - 1) l.

(** ** The scraper *)

Section Scraper.
Variable E : Env.

Definition progress_callback (m : Msg) (st : State) : State := record (Progress m) st.

(** A point where the task yields to the event loop.  The owner may call
    [stop_scraping] there. *)
Definition suspend (st : State) : State :=
  let st1 := next_await st in
  if stop_called E (awaits st) then stop_scraping (record StopCalled st1) else st1.

(** [await asyncio.sleep(seconds)] *)
Definition asyncio_sleep (seconds : Z) (st : State) : State :=
  suspend (record (Sleep seconds) st).

(** One draw below [n]. *)
Definition randbelow (n : nat) (st : State) : nat * State :=
  ((rand E (draws st) mod n)%nat, skip_draws 1 st).

(** [random.randint(a, b)] *)
Definition randint (a b : Z) (st : State) : Z * State :=
  let (r, st1) := randbelow (Z.to_nat (b - a + 1)) st in
  (a + Z.of_nat r, st1).

(** [random.choice(self.user_agents)] *)
Definition choice_user_agent (st : State) : string * State :=
  let (i, st1) := randbelow (length user_agents) st in
  (default "" (user_agents !! i), st1).

(** [random.shuffle(categories_list)] *)
Definition shuffle_categories (st : State) : list (string * string) * State :=
  (shuffle_by (fun k => rand E (draws st + k)) categories,
   skip_draws (length categories - 1) st).

(** The order of [for url in listing_urls]. *)
Definition iterate (listing_urls : gset string) : list string :=
  shuffle_by (set_order E (elements listing_urls)) (elements listing_urls).

(** [async with self.session.get(url, headers=headers) as response] *)
Definition get (k : Kind) (url user_agent : string) (st : State)
  : Outcome Response * State :=
  let st1 := record (Get k url user_agent) st in
  (session_get E (awaits st1) url, suspend st1).

(** Lines 196-232, between [html = await response.text()] and the end of
    the [try]: [Ok None] when the function falls through to its last
    line, [Raise] when an exception reaches the [except]. *)
Definition details_of_page (url category_name html : string) (clock : nat)
  : Outcome (option Listing) :=
  let soup := BeautifulSoup E html in
  let title := extract_title soup in
  let price := extract_price (int_max_str_digits E) soup in
  match extract_area (int_max_str_digits E) soup with
  | Raise e => Raise e
  | Ok area =>
      let location := extract_location soup in
      let description := extract_description soup in
      let phone := extract_phone_number html in
      let text_content := str_lower E (get_text soup) in
      if is_private text_content && (0 <? price) then
        match eur_per_m2_of price area with
        | Raise e => Raise e
        | Ok eur =>
            Ok (Some {| title := title; price := price; area := area;
                        location := location; url := url;
                        description := description; phoneNumber := phone;
                        category := listing_category_of category_name;
                        region := region_of category_name;
                        eur_per_m2 := eur;
                        scraped_at := now_isoformat E clock |})
        end
      else Ok None
  end.

(** Lines 182-237. *)
Definition extract_listing_details (url category_name : string) (st : State)
  : option Listing * State :=
  let (user_agent, st1) := choice_user_agent st in
  let (out, st2) := get DetailPage url user_agent st1 in
  match out with
  | Raise _ => (None, st2)
  | Ok response =>
      if negb (status response =? 200) then (None, st2)
      else
        match text response with
        | Raise _ => (None, st2)
        | Ok html =>
            match details_of_page url category_name html (awaits st2) with
            | Ok listing => (listing, st2)
            | Raise _ => (None, st2)
            end
        end
  end.

(** Lines 175-178. *)
Fixpoint details_loop (urls : list string) (category_name : string)
         (listings : list Listing) (st : State) : list Listing * State :=
  match urls with
  | [] => (listings, st)
  | url :: rest =>
      let (listing, st1) := extract_listing_details url category_name st in
      match listing with
      | Some l => details_loop rest category_name (listings ++ [l]) st1
      | None => details_loop rest category_name listings st1
      end
  end.

(** Lines 152-180. *)
Definition parse_listings_page (html category_name : string) (st : State)
  : list Listing * State :=
  let soup := BeautifulSoup E html in
  let listing_urls := discover soup in
  details_loop (iterate listing_urls) category_name [] st.

(** Lines 123-150. *)
Definition get_page_listings (url category_name : string) (st : State)
  : list Listing * State :=
  let (user_agent, st1) := choice_user_agent st in
  let (out, st2) := get SearchPage url user_agent st1 in
  match out with
  | Raise e => ([], progress_callback (MsgRequestError e) st2)
  | Ok response =>
      if status response =? 200 then
        match text response with
        | Raise e => ([], progress_callback (MsgRequestError e) st2)
        | Ok html => parse_listings_page html category_name st2
        end
      else if status response =? 429 then
        let st3 := progress_callback MsgRateLimit st2 in
        let st4 := asyncio_sleep 60 st3 in
        ([], st4)
      else ([], progress_callback (MsgHttpError (status response) url) st2)
  end.

(** Lines 106-115. *)
Fixpoint listing_loop (listings : list Listing) (st : State) : State :=
  match listings with
  | [] => st
  | listing :: rest =>
      if negb (is_running st) then st
      else
        let st1 := append_listing listing st in
        let st2 := progress_callback (MsgFound (title listing) (price listing)) st1 in
        let (delay, st3) := randint 5 12 st2 in
        let st4 := asyncio_sleep delay st3 in
        listing_loop rest st4
  end.

(** Lines 96-118. *)
Fixpoint page_loop (pages : list Z) (category_name base_url : string) (st : State)
  : State :=
  match pages with
  | [] => st
  | page :: rest =>
      if negb (is_running st) then st
      else
        let url := base_url +:+ "&page=" +:+ Str.of_Z page in
        let (listings, st1) := get_page_listings url category_name st in
        let st2 := progress_callback (MsgPage page (length listings) category_name) st1 in
        let st3 := listing_loop listings st2 in
        let (delay, st4) := randint 15 30 st3 in
        let st5 := asyncio_sleep delay st4 in
        page_loop rest category_name base_url st5
  end.

(** Lines 90-121.  [get_page_listings] catches what it raises and the
    callback is taken to return, so nothing in the [try] raises and the
    [except] is not entered. *)
Definition scan_category (category_name base_url : string) (st : State) : State :=
  let st1 := progress_callback (MsgScan category_name) st in
  page_loop [1; 2; 3] category_name base_url st1.

(** Lines 70-79. *)
Fixpoint category_loop (categories_list : list (string * string)) (st : State) : State :=
  match categories_list with
  | [] => st
  | (category_name, base_url) :: rest =>
      if negb (is_running st) then st
      else
        let st1 := scan_category category_name base_url st in
        let (category_delay, st2) := randint 180 480 st1 in
        let st3 := progress_callback (MsgPause (category_delay / 60)) st2 in
        let st4 := asyncio_sleep category_delay st3 in
        category_loop rest st4
  end.

(** One pass of the [while] body, lines 61-84; for the same reason its
    [except] (lines 86-88) is not entered. *)
Definition cycle (st : State) : State :=
  let st1 := next_cycle st in
  let st2 := progress_callback (MsgCycle (current_cycle st1)) st1 in
  let (categories_list, st3) := shuffle_categories st2 in
  let st4 := category_loop categories_list st3 in
  let (cycle_delay, st5) := randint 1200 2700 st4 in
  let st6 := progress_callback (MsgCycleComplete (cycle_delay / 60)) st5 in
  asyncio_sleep cycle_delay st6.

(** What is known of a run after a bounded number of cycles. *)
Inductive Run : Type :=
| Returned (st : State)       (* the loop has ended *)
| Running (st : State).       (* it is about to test its condition again *)

Definition state_of (r : Run) : State :=
  match r with Returned st | Running st => st end.

(** Lines 58-88, followed for at most [cycles] passes. *)
Fixpoint continuous_scan_loop (cycles : nat) (st : State) : Run :=
  if is_running st then
    match cycles with
    | O => Running st
    | S n => continuous_scan_loop n (cycle st)
    end
  else Returned st.

(** Lines 39-56. *)
Definition start_247_scraping (cycles : nat) (st : State) : Run :=
  if is_running st then Returned (progress_callback MsgAlreadyRunning st)
  else
    let st1 := set_running true st in
    let st2 := progress_callback MsgStarted st1 in
    continuous_scan_loop cycles st2.

End Scraper.

(** ** A small world to run the scraper in

    Every search page shows the same two anchors; every detail page is the
    same private offer.  [quiet] never stops the scraper, [stopping_at n]
    stops it during suspension [n]; [limited] answers every search with 429. *)

Module Demo.

Definition lower_ascii (c : ascii) : ascii :=
  let n := nat_of_ascii c in
  if (65 <=? n)%nat && (n <=? 90)%nat then ascii_of_nat (n + 32) else c.

Fixpoint lower (s : string) : string :=
  match s with
  | EmptyString => EmptyString
  | String c s' => String (lower_ascii c) (lower s')
  end.

Definition anchor (href : string) : Tag := {| tag_text := "Anzeige"; tag_href := Some href |}.
Definition element (t : string) : Tag := {| tag_text := t; tag_href := None |}.

Definition search_html : string := "<search/>".
Definition detail_html : string := "<detail/> Tel: +43 664 1234567".

Definition search_soup : Soup :=
  {| select := fun selector =>
       if String.eqb selector ".result-item a"
       then [anchor "/iad/immobilien/d/AAA"; anchor "/iad/immobilien/d/AAA?x=1"]
       else [];
     get_text := "Suche" |}.

Definition detail_soup : Soup :=
  {| select := fun selector =>
       if String.eqb selector "h1" then [element "  Helle Wohnung "]
       else if String.eqb selector ".AdDetailPrice" then [element "EUR 350.000"]
       else if String.eqb selector ".AdDetailProperties" then [element ("Wohnflaeche ca. 75 m" +:+ superscript_two)]
       else [];
     get_text := "Helle Wohnung, Privatverkauf ohne Makler" |}.

Definition parse (html : string) : Soup :=
  if String.eqb html search_html then search_soup else detail_soup.

Definition page (html : string) : Outcome Response :=
  Ok {| status := 200; text := Ok html |}.

Definition web (n : nat) (url : string) : Outcome Response :=
  if Str.contains listing_path url then page detail_html else page search_html.

Definition web_429 (n : nat) (url : string) : Outcome Response :=
  Ok {| status := 429; text := Ok "" |}.

Definition world (http : nat -> string -> Outcome Response) (stop : nat -> bool) : Env :=
  {| session_get := http;
     BeautifulSoup := parse;
     rand := fun k => k;
     set_order := fun _ k => k;
     now_isoformat := fun _ => "2025-01-01T00:00:00";
     str_lower := lower;
     int_max_str_digits := Some 4300%nat;
     stop_called := stop |}.

Definition quiet : Env := world web (fun _ => false).
Definition stopping_at (n : nat) : Env := world web (Nat.eqb n).
Definition limited : Env := world web_429 (fun _ => false).

Definition running : State := set_running true init.

End Demo.

(** ** Vocabulary of the properties *)

(** [needle] occurs in [hay]. *)
Definition Substring (needle hay : string) : Prop :=
  ∃ pre post, hay = pre +:+ needle +:+ post.

(** The acceptance invariant: the price is positive, and the listing's URL
    was answered with status 200 by a page whose price is the listing's and
    whose lower-cased text holds one of the private-seller keywords. *)
Definition Accepted (E : Env) (l : Listing) : Prop :=
  0 < price l ∧
  ∃ n response html keyword,
    session_get E n (url l) = Ok response ∧
    status response = 200 ∧
    text response = Ok html ∧
    price l = extract_price (int_max_str_digits E) (BeautifulSoup E html) ∧
    keyword ∈ private_keywords ∧
    Substring keyword (str_lower E (get_text (BeautifulSoup E html))).

(** [q] is the integer nearest to [n / d], the even one of the two when
    [n / d] lies half-way between them. *)
Definition nearest_even (n d q : Z) : Prop :=
  (2 * q - 1) * d ≤ 2 * n ≤ (2 * q + 1) * d ∧
  (2 * n = (2 * q - 1) * d → Z.even q = true) ∧
  (2 * n = (2 * q + 1) * d → Z.even q = true).

(** The derived price per square metre: with a positive area it is the
    float quotient, rounded, which for a price below 2^52 is the integer
    nearest to the exact quotient; with the area 0 it is 0. *)
Definition PricePerArea (l : Listing) : Prop :=
  0 ≤ area l ∧
  (0 < area l →
   ∃ x, Float.true_div (price l) (area l) = Ok x ∧ eur_per_m2 l = Float.round x) ∧
  (0 < area l → 0 < price l < 2 ^ 52 →
   nearest_even (price l) (area l) (eur_per_m2 l)) ∧
  (area l = 0 → eur_per_m2 l = 0).

(** Region and category as derived from a category key. *)
Definition DerivedFrom (category_name : string) (l : Listing) : Prop :=
  (Substring "wien" category_name → region l = "wien") ∧
  (¬ Substring "wien" category_name → region l = "niederoesterreich") ∧
  (Substring "eigentumswohnung" category_name → category l = "eigentumswohnung") ∧
  (¬ Substring "eigentumswohnung" category_name → category l = "grundstueck").

Definition Classified (l : Listing) : Prop :=
  (∃ category_name, category_name ∈ category_keys ∧ DerivedFrom category_name l) ∧
  (region l = "wien" ∨ region l = "niederoesterreich") ∧
  (category l = "eigentumswohnung" ∨ category l = "grundstueck").

(** Histories.  [StopCalled] marks a call of [stop_scraping] by the owner;
    the other events are the scraper's own. *)
Definition is_stop (e : Event) : bool :=
  match e with StopCalled => true | _ => false end.

Definition actions (h : list Event) : list Event :=
  List.filter (fun e => negb (is_stop e)) h.








(** A run stopped during its first suspension, the request of the first
    search page. *)
Definition stopped_run : State :=
  state_of (start_247_scraping (Demo.stopping_at 0) 3 init).

(** An absolute URL starts with a scheme: a letter, then letters, digits,
    [+], [-] or [.], then a colon (RFC 3986). *)
Definition is_alpha (c : ascii) : bool :=
  let n := nat_of_ascii c in
  ((65 <=? n)%nat && (n <=? 90)%nat) || ((97 <=? n)%nat && (n <=? 122)%nat).

Fixpoint scheme_rest (s : string) : bool :=
  match s with
  | EmptyString => false
  | String c s' =>
      if Str.is_char ":" c then true
      else if is_alpha c || Str.is_digit c || Str.is_char "+" c
              || Str.is_char "-" c || Str.is_char "." c
           then scheme_rest s'
           else false
  end.

Definition is_absolute_url (u : string) : bool :=
  match u with
  | EmptyString => false
  | String c s' => is_alpha c && scheme_rest s'
  end.

(** The URL kept for an anchor's [href]. *)
Definition kept_url (href : string) : string :=
  if Str.startswith "/" href then origin +:+ href else href.



(** The last [n] elements of a list, all of them when there are fewer. *)
Definition last_n {A : Type} (n : nat) (l : list A) : list A :=
  drop (length l - n) l.

(** A search page with one anchor whose [href] is a relative path. *)
Definition relative_soup : Soup :=
  {| select := fun selector =>
       if String.eqb selector ".result-item a"
       then [Demo.anchor "angebote/iad/immobilien/d/AAA"]
       else [];
     get_text := "Suche" |}.

(** A buffer of two listings. *)
Definition sample_listing (u : string) : Listing :=
  {| title := "Helle Wohnung"; price := 350000; area := 75;
     location := "Wien"; url := u; description := ""; phoneNumber := None;
     category := "eigentumswohnung"; region := "wien"; eur_per_m2 := 4667;
     scraped_at := "2025-01-01T00:00:00" |}.

Definition two_found : State :=
  {| is_running := false; current_cycle := 1;
     found_listings := [sample_listing "https://www.willhaben.at/iad/immobilien/d/A";
                        sample_listing "https://www.willhaben.at/iad/immobilien/d/B"];
     awaits := 0; draws := 0; history := [] |}.

(** The strings a regular expression matches. *)
Inductive Lang : Re.regex → string → Prop :=
| Lang_eps : Lang Re.Eps ""
| Lang_chr p c : p c = true → Lang (Re.Chr p) (String c "")
| Lang_cat r1 r2 s1 s2 : Lang r1 s1 → Lang r2 s2 → Lang (Re.Cat r1 r2) (s1 +:+ s2)
| Lang_alt_l r1 r2 s : Lang r1 s → Lang (Re.Alt r1 r2) s
| Lang_alt_r r1 r2 s : Lang r2 s → Lang (Re.Alt r1 r2) s
| Lang_opt_none r : Lang (Re.Opt r) ""
| Lang_opt_some r s : Lang r s → Lang (Re.Opt r) s
| Lang_star p s : Str.forallb p s = true → Lang (Re.Star p) s
| Lang_group r s : Lang r s → Lang (Re.Group r) s.


(** ** Vocabulary of the further properties *)

(** The five pacing windows (lines 77, 82, 115, 118, 142), in seconds. *)
Definition paced (e : Event) : Prop :=
  match e with
  | Sleep s =>
      5 ≤ s ≤ 12 ∨ 15 ≤ s ≤ 30 ∨ s = 60 ∨ 180 ≤ s ≤ 480 ∨ 1200 ≤ s ≤ 2700
  | _ => True
  end.

Definition search_url (e : Event) : option string :=
  match e with Get SearchPage u _ => Some u | _ => None end.

Definition detail_url (e : Event) : option string :=
  match e with Get DetailPage u _ => Some u | _ => None end.

(** The URLs requested in a stretch of history, oldest first. *)
Definition searches (h : list Event) : list string := rev (omap search_url h).
Definition details (h : list Event) : list string := rev (omap detail_url h).

(** The three URLs [scan_category] builds from a base URL (line 100). *)
Definition page_urls (base_url : string) : list string :=
  (fun page => base_url +:+ "&page=" +:+ Str.of_Z page) <$> [1; 2; 3].

(** From [st] to [st'] the history grows by paced events, the buffer at its
    end, and no counter goes back. *)
Definition grows (st st' : State) : Prop :=
  ∃ new added,
    history st' = new ++ history st ∧
    Forall paced new ∧
    found_listings st' = found_listings st ++ added ∧
    (draws st ≤ draws st')%nat ∧
    current_cycle st ≤ current_cycle st'.

(** From [st] to [st'] the search pages [ss] and the detail pages [ds] are
    requested, in that order; the cycle counter stays, and so does the
    flag unless the owner stops the scraper in between. *)
Definition trail (E : Env) (st st' : State) (ss ds : list string) : Prop :=
  ∃ new,
    history st' = new ++ history st ∧
    searches new = ss ∧
    details new = ds ∧
    (awaits st ≤ awaits st')%nat ∧
    current_cycle st' = current_cycle st ∧
    ((∀ k, (awaits st ≤ k < awaits st')%nat → stop_called E k = false) →
     is_running st' = is_running st).

(** A sleep of a page's length or more. *)
Definition long_sleep (e : Event) : bool :=
  match e with Sleep s => 15 <=? s | _ => false end.

(** Reading events oldest first: a search page is requested only when
    [ready], that is, when a long sleep has passed since the search request
    before; the result is the readiness at the end, [None] when a request
    came too early. *)
Fixpoint spaced (ready : bool) (chron : list Event) : option bool :=
  match chron with
  | [] => Some ready
  | Get SearchPage _ _ :: rest => if ready then spaced false rest else None
  | e :: rest => spaced (ready || long_sleep e) rest
  end.

(** From [st] to [st'] the search requests keep their distance, with the
    readiness [r] before and [r'] after. *)
Definition spacing (st st' : State) (r r' : bool) : Prop :=
  ∃ new, history st' = new ++ history st ∧ spaced r (rev new) = Some r'.


(** What [get_page_listings] reports for an answer that is neither a page
    nor a rate limit (lines 144-149), if the answer is such. *)
Definition failure_message (url : string) (out : Outcome Response) : option Msg :=
  match out with
  | Raise e => Some (MsgRequestError e)
  | Ok response =>
      if status response =? 200 then
        match text response with
        | Raise e => Some (MsgRequestError e)
        | Ok _ => None
        end
      else if status response =? 429 then None
      else Some (MsgHttpError (status response) url)
  end.

(** A document in which no selector selects anything. *)
Definition blank_soup (t : string) : Soup :=
  {| select := fun _ => []; get_text := t |}.

(** A world whose parser finds no element in any page. *)
Definition blank : Env :=
  {| session_get := Demo.web;
     BeautifulSoup := blank_soup;
     rand := fun k => k;
     set_order := fun _ k => k;
     now_isoformat := fun _ => "2025-01-01T00:00:00";
     str_lower := Demo.lower;
     int_max_str_digits := Some 4300%nat;
     stop_called := fun _ => false |}.

(** A detail page priced at 1 followed by 400 zeros. *)
Fixpoint zeros (n : nat) : string :=
  match n with
  | O => EmptyString
  | S k => String "0" (zeros k)
  end.

Definition costly_soup : Soup :=
  {| select := fun selector =>
       if String.eqb selector ".AdDetailPrice" then [Demo.element ("1" +:+ zeros 400)]
       else if String.eqb selector ".AdDetailProperties"
            then [Demo.element ("75 m" +:+ superscript_two)]
            else [];
     get_text := "Privatverkauf" |}.

Definition costly : Env :=
  {| session_get := Demo.web;
     BeautifulSoup := fun html =>
       if String.eqb html Demo.search_html then Demo.search_soup else costly_soup;
     rand := fun k => k;
     set_order := fun _ k => k;
     now_isoformat := fun _ => "2025-01-01T00:00:00";
     str_lower := Demo.lower;
     int_max_str_digits := Some 4300%nat;
     stop_called := fun _ => false |}.

(** A world whose every answer is the status 500. *)
Definition failing : Env :=
  Demo.world (fun _ _ => Ok {| status := 500; text := Ok "" |}) (fun _ => false).

(** * Properties *)

(** ** Strings *)

Lemma append_nil (t : string) : "" +:+ t = t.
Proof. reflexivity. Qed.

Lemma append_cons (c : ascii) (s t : string) : String c s +:+ t = String c (s +:+ t).
Proof. reflexivity. Qed.

Lemma append_assoc (s t u : string) : (s +:+ t) +:+ u = s +:+ (t +:+ u).
Proof. induction s as [|c s IH]; [done |]. rewrite !append_cons. by f_equal. Qed.

Lemma startswith_spec p s :
  Str.startswith p s = true ↔ ∃ post, s = p +:+ post.
Proof.
  revert s. induction p as [|a p IH]; intros s; simpl.
  - split; [intros _; by exists s | done].
  - destruct s as [|b s].
    + split; [done | intros [post H]; rewrite append_cons in H; discriminate].
    + destruct (Ascii.eqb_spec a b) as [->|Hne].
      * rewrite IH. split; intros [post H]; exists post;
          rewrite append_cons in *; congruence.
      * split; [done | intros [post H]; rewrite append_cons in H; congruence].
Qed.

Lemma contains_spec needle hay :
  Str.contains needle hay = true ↔ Substring needle hay.
Proof.
  unfold Substring. induction hay as [|c hay IH].
  - simpl. destruct (Str.startswith needle "") eqn:Hs.
    + apply startswith_spec in Hs as [post Hs].
      split; [intros _; by exists "", post | done].
    + split; [done |]. intros (pre & post & H).
      destruct pre; [| rewrite append_cons in H; discriminate].
      rewrite append_nil in H.
      assert (Str.startswith needle "" = true) by (apply startswith_spec; eauto).
      congruence.
  - simpl. destruct (Str.startswith needle (String c hay)) eqn:Hs.
    + apply startswith_spec in Hs as [post Hs].
      split; [intros _; by exists "", post | done].
    + rewrite IH. split.
      * intros (pre & post & ->). by exists (String c pre), post.
      * intros (pre & post & H). destruct pre as [|c' pre].
        -- rewrite append_nil in H.
           assert (Str.startswith needle (String c hay) = true)
             by (apply startswith_spec; eauto).
           congruence.
        -- rewrite append_cons in H. injection H as _ ->. eauto.
Qed.

(** ** Shuffling yields a permutation *)

Lemma swap_lookup {A : Type} (i j : nat) (l : list A) (n : nat) :
  (i < length l)%nat → (j < length l)%nat →
  swap i j l !! n =
  l !! (if decide (n = i) then j else if decide (n = j) then i else n).
Proof.
  intros Hi Hj. unfold swap.
  destruct (lookup_lt_is_Some_2 l i Hi) as [a Ha].
  destruct (lookup_lt_is_Some_2 l j Hj) as [b Hb].
  rewrite Ha, Hb.
  destruct (decide (n = i)) as [->|Hni].
  - rewrite list_lookup_insert_eq by (by rewrite length_insert). done.
  - rewrite list_lookup_insert_ne by done.
    destruct (decide (n = j)) as [->|Hnj].
    + by rewrite list_lookup_insert_eq.
    + by rewrite list_lookup_insert_ne.
Qed.

Lemma swap_length {A : Type} (i j : nat) (l : list A) : length (swap i j l) = length l.
Proof. unfold swap. repeat case_match; by rewrite ?length_insert. Qed.

Lemma swap_perm {A : Type} (i j : nat) (l : list A) :
  (i < length l)%nat → (j < length l)%nat → swap i j l ≡ₚ l.
Proof.
  intros Hi Hj. apply Permutation_inj. split; [apply swap_length |].
  exists (fun n => if decide (n = i) then j else if decide (n = j) then i else n).
  split; [| by intros n; apply swap_lookup].
  intros x y Hxy.
  destruct (decide (x = i)), (decide (x = j)), (decide (y = i)), (decide (y = j)); lia.
Qed.

Lemma shuffle_steps_perm {A : Type} (r : nat → nat) (k i : nat) (l : list A) :
  (i < length l)%nat → shuffle_steps r k i l ≡ₚ l.
Proof.
  revert k l. induction i as [|i IH]; intros k l Hi; simpl; [done |].
  rewrite IH by (rewrite swap_length; lia).
  apply swap_perm; [done |].
  pose proof (Nat.mod_upper_bound (r k) (S i + 1)). lia.
Qed.

Lemma shuffle_by_perm {A : Type} (r : nat → nat) (l : list A) : shuffle_by r l ≡ₚ l.
Proof.
  unfold shuffle_by. destruct l as [|x l]; [done |].
  apply shuffle_steps_perm. simpl. lia.
Qed.

(** ** Listing discovery *)

Lemma elem_of_add_link urls link u :
  u ∈ add_link urls link ↔
  u ∈ urls ∨ (Str.contains listing_path (get_href link) = true ∧ u = kept_url (get_href link)).
Proof.
  unfold add_link, kept_url.
  destruct (Str.contains listing_path (get_href link)); set_solver.
Qed.

Lemma elem_of_add_links urls links u :
  u ∈ add_links urls links ↔
  u ∈ urls ∨
  ∃ link, link ∈ links ∧ Str.contains listing_path (get_href link) = true
          ∧ u = kept_url (get_href link).
Proof.
  unfold add_links. revert urls.
  induction links as [|link links IH]; intros urls; simpl.
  - split; [auto | intros [H | (link & H & _)]; [done | by apply elem_of_nil in H]].
  - rewrite IH, elem_of_add_link. split.
    + intros [[H | [H1 H2]] | (link' & H & H1 & H2)]; [by left | right ..].
      * exists link. split; [left | done].
      * exists link'. split; [by right | done].
    + intros [H | (link' & H & H1 & H2)]; [by left; left |].
      apply elem_of_cons in H as [-> | H]; [left; right; done | right; eauto].
Qed.

Lemma elem_of_discover_from urls selectors soup u :
  u ∈ foldl (fun urls selector => add_links urls (select soup selector)) urls selectors ↔
  u ∈ urls ∨
  ∃ selector link, selector ∈ selectors ∧ link ∈ select soup selector
                   ∧ Str.contains listing_path (get_href link) = true
                   ∧ u = kept_url (get_href link).
Proof.
  revert urls. induction selectors as [|selector selectors IH]; intros urls; simpl.
  - split; [auto | intros [H | (s & link & H & _)]; [done | by apply elem_of_nil in H]].
  - rewrite IH, elem_of_add_links. split.
    + intros [[H | (link & H & H1)] | (s & link & H & H1)]; [by left | right ..].
      * exists selector, link. split; [left | done].
      * exists s, link. split; [by right | done].
    + intros [H | (s & link & H & H1)]; [by left; left |].
      apply elem_of_cons in H as [-> | H]; [left; right; eauto | right; eauto].
Qed.

(** The discovered set holds the kept URL of every anchor that one of the
    three selectors selects and whose [href] holds the listing path, and
    nothing else. *)
Lemma elem_of_discover soup u :
  u ∈ discover soup ↔
  ∃ selector link, selector ∈ link_selectors ∧ link ∈ select soup selector
                   ∧ Str.contains listing_path (get_href link) = true
                   ∧ u = kept_url (get_href link).
Proof.
  unfold discover. rewrite elem_of_discover_from.
  split; [intros [H | H]; [by apply not_elem_of_empty in H | done] | by right].
Qed.

Lemma iterate_perm E (urls : gset string) : iterate E urls ≡ₚ elements urls.
Proof. apply shuffle_by_perm. Qed.

Lemma elem_of_iterate E (urls : gset string) u : u ∈ iterate E urls ↔ u ∈ urls.
Proof. by rewrite iterate_perm, elem_of_elements. Qed.

Lemma NoDup_iterate E (urls : gset string) : NoDup (iterate E urls).
Proof. rewrite iterate_perm. apply NoDup_elements. Qed.

Lemma substring_kept_url href :
  Substring listing_path href → Substring listing_path (kept_url href).
Proof.
  unfold kept_url. destruct (Str.startswith "/" href); [| done].
  intros (pre & post & ->). exists (origin +:+ pre), post.
  by rewrite append_assoc.
Qed.

(** C6, as the claim has it, fails: the page with the anchors
    [/iad/immobilien/d/AAA] and [/iad/immobilien/d/AAA?x=1] leaves two URLs
    in the set, not one. *)
Lemma C6_two_urls_kept :
  discover Demo.search_soup =
    {[ "https://www.willhaben.at/iad/immobilien/d/AAA";
       "https://www.willhaben.at/iad/immobilien/d/AAA?x=1" ]}
  ∧ size (discover Demo.search_soup) ≠ 1%nat.
Proof. split; [by vm_compute | by vm_compute]. Qed.

(** C6, amended: when the anchors of a search page carry the two hrefs
    [/iad/immobilien/d/AAA] and [/iad/immobilien/d/AAA?x=1] and no other,
    the discovered set holds both of them under the site's origin: the
    whole URL, query string included, is the key. *)
Theorem C6_query_string_is_part_of_the_key (soup : Soup) :
  (∃ selector link, selector ∈ link_selectors ∧ link ∈ select soup selector
                    ∧ get_href link = "/iad/immobilien/d/AAA") →
  (∃ selector link, selector ∈ link_selectors ∧ link ∈ select soup selector
                    ∧ get_href link = "/iad/immobilien/d/AAA?x=1") →
  (∀ selector link, selector ∈ link_selectors → link ∈ select soup selector →
                    get_href link = "/iad/immobilien/d/AAA"
                    ∨ get_href link = "/iad/immobilien/d/AAA?x=1") →
  discover soup =
    {[ "https://www.willhaben.at/iad/immobilien/d/AAA";
       "https://www.willhaben.at/iad/immobilien/d/AAA?x=1" ]}
  ∧ size (discover soup) = 2%nat.
Proof.
  intros (s1 & l1 & Hs1 & Hl1 & Hh1) (s2 & l2 & Hs2 & Hl2 & Hh2) Hall.
  assert (discover soup =
            {[ "https://www.willhaben.at/iad/immobilien/d/AAA";
               "https://www.willhaben.at/iad/immobilien/d/AAA?x=1" ]}) as ->.
  { apply set_eq. intros u. rewrite elem_of_discover. split.
    - intros (s & l & Hs & Hl & _ & ->).
      destruct (Hall s l Hs Hl) as [-> | ->]; set_solver.
    - intros [->%elem_of_singleton | ->%elem_of_singleton]%elem_of_union.
      + exists s1, l1. rewrite Hh1. done.
      + exists s2, l2. rewrite Hh2. done. }
  split; [done | by vm_compute].
Qed.

Lemma C6_query_string_is_part_of_the_key_witness :
  discover Demo.search_soup =
    {[ "https://www.willhaben.at/iad/immobilien/d/AAA";
       "https://www.willhaben.at/iad/immobilien/d/AAA?x=1" ]}
  ∧ size (discover Demo.search_soup) = 2%nat.
Proof.
  apply (C6_query_string_is_part_of_the_key Demo.search_soup).
  - exists ".result-item a", (Demo.anchor "/iad/immobilien/d/AAA").
    split; [by vm_compute; repeat constructor |].
    split; [by vm_compute; repeat constructor | reflexivity].
  - exists ".result-item a", (Demo.anchor "/iad/immobilien/d/AAA?x=1").
    split; [by vm_compute; repeat constructor |].
    split; [by vm_compute; repeat constructor | reflexivity].
  - intros selector link _. simpl.
    destruct (String.eqb selector ".result-item a").
    + intros [-> | [-> | []%elem_of_nil]%elem_of_cons]%elem_of_cons; [by left | by right].
    + by intros ?%elem_of_nil.
Defined.

(** C7, as the claim has it, fails: an anchor whose [href] is the relative
    path [angebote/iad/immobilien/d/AAA] is kept as it stands, and that is
    not an absolute URL. *)
Lemma C7_relative_href_kept :
  ¬ (∀ u, u ∈ discover relative_soup →
          is_absolute_url u = true ∧ Substring listing_path u).
Proof.
  intros H. destruct (H "angebote/iad/immobilien/d/AAA") as [Habs _]; [| done].
  apply elem_of_discover.
  exists ".result-item a", (Demo.anchor "angebote/iad/immobilien/d/AAA").
  split; [by vm_compute; repeat constructor |].
  split; [by vm_compute; repeat constructor | done].
Qed.

(** C7, amended: the URLs the loop over [listing_urls] visits are pairwise
    different and each holds the listing path; each is the [href] of an
    anchor found by one of the three selectors, behind the site's origin
    (and then absolute) when the [href] starts with a slash, unchanged when
    it does not. *)
Theorem C7_discovered_urls (E : Env) (soup : Soup) :
  NoDup (iterate E (discover soup)) ∧
  ∀ u, u ∈ iterate E (discover soup) →
       Substring listing_path u ∧
       ∃ selector link,
         selector ∈ link_selectors ∧ link ∈ select soup selector ∧
         ((Str.startswith "/" (get_href link) = true
           ∧ u = origin +:+ get_href link ∧ is_absolute_url u = true)
          ∨ (Str.startswith "/" (get_href link) = false ∧ u = get_href link)).
Proof.
  split; [apply NoDup_iterate |].
  intros u [selector [link (Hs & Hl & Hc & ->)]]%elem_of_iterate%elem_of_discover.
  split; [by apply substring_kept_url, contains_spec |].
  exists selector, link. split; [done |]. split; [done |].
  unfold kept_url. destruct (Str.startswith "/" (get_href link)); [left | right]; done.
Qed.

(** ** Price extraction *)






(** ** Recent listings *)

Lemma slice_from_last {A : Type} (limit : Z) (l : list A) :
  0 < limit → slice_from (- limit) l = last_n (Z.to_nat limit) l.
Proof.
  intros Hpos. unfold slice_from, last_n.
  destruct (Z.ltb_spec (- limit) 0); [| lia].
  f_equal. lia.
Qed.

(** For a positive limit the slice is what the claim says. *)
Lemma get_recent_listings_positive (limit : Z) (st : State) :
  0 < limit →
  get_recent_listings limit st = last_n (Z.to_nat limit) (found_listings st)
  ∧ Z.of_nat (length (get_recent_listings limit st)) ≤ limit.
Proof.
  intros Hpos. unfold get_recent_listings.
  destruct (found_listings st) as [|x l] eqn:Hl.
  - split; [done | simpl; lia].
  - rewrite slice_from_last by done. split; [done |].
    unfold last_n. rewrite length_drop. lia.
Qed.

(** C9, at the limit 0: [l[-0:]] is the whole list, so every buffered
    listing is returned where the claim allows none. *)
Theorem C9_limit_zero_returns_all :
  (∀ st, get_recent_listings 0 st = found_listings st) ∧
  length (get_recent_listings 0 two_found) = 2%nat.
Proof.
  split; [| reflexivity].
  intros st. unfold get_recent_listings.
  destruct (found_listings st) as [|x l]; [done |].
  unfold slice_from. change (- 0) with 0.
  destruct (Z.ltb_spec 0 0); [lia |].
  rewrite Z.min_l by lia. done.
Qed.

(** ** The matcher only reports matches *)

Lemma append_empty_r (s : string) : s +:+ "" = s.
Proof. induction s as [|c s IH]; [done |]. rewrite append_cons. by f_equal. Qed.

Lemma length_append (s t : string) :
  String.length (s +:+ t) = (String.length s + String.length t)%nat.
Proof. induction s as [|c s IH]; [done |]. rewrite append_cons. simpl. by f_equal. Qed.

Lemma take_append (pre rest : string) :
  Str.take (String.length (pre +:+ rest) - String.length rest) (pre +:+ rest) = pre.
Proof.
  rewrite length_append.
  replace (String.length pre + String.length rest - String.length rest)%nat
    with (String.length pre) by lia.
  induction pre as [|c pre IH]; [done |].
  rewrite append_cons. simpl. by f_equal.
Qed.

Lemma forallb_append (p : ascii → bool) (s t : string) :
  Str.forallb p (s +:+ t) = Str.forallb p s && Str.forallb p t.
Proof.
  induction s as [|c s IH]; [done |].
  rewrite append_cons. simpl. rewrite IH. by destruct (p c).
Qed.

Lemma star_sound {A : Type} (p : ascii → bool) (s : string)
      (k : string → option A) (x : A) :
  Re.star p s k = Some x →
  ∃ pre rest, s = pre +:+ rest ∧ Str.forallb p pre = true ∧ k rest = Some x.
Proof.
  induction s as [|c s IH]; simpl.
  - intros H. by exists "", "".
  - destruct (p c) eqn:Hp; [| intros H; by exists "", (String c s)].
    destruct (Re.star p s k) as [y|] eqn:Hstar.
    + intros [= ->]. destruct (IH eq_refl) as (pre & rest & -> & Hall & Hk).
      exists (String c pre), rest. simpl. by rewrite Hp, Hall.
    + intros H. by exists "", (String c s).
Qed.

Lemma run_sound {A : Type} (r : Re.regex) :
  ∀ (s : string) (g : option string) (k : string → option string → option A) (x : A),
    Re.run r s g k = Some x →
    ∃ pre rest g1,
      s = pre +:+ rest ∧ Lang r pre ∧ k rest g1 = Some x
      ∧ (Re.has_group r = false → g1 = g).
Proof.
  induction r as [|p|r1 IH1 r2 IH2|r1 IH1 r2 IH2|r1 IH1|p|r1 IH1];
    intros s g k x; simpl.
  - intros H. exists "", s, g. by repeat split; try constructor.
  - destruct s as [|c s]; [done |]. destruct (p c) eqn:Hp; [| done].
    intros H. exists (String c ""), s, g. by repeat split; try constructor.
  - intros H. apply IH1 in H as (pre1 & rest1 & g1 & -> & HL1 & H & Hg1).
    apply IH2 in H as (pre2 & rest2 & g2 & -> & HL2 & H & Hg2).
    exists (pre1 +:+ pre2), rest2, g2. rewrite append_assoc.
    repeat split; [by constructor | done |].
    intros [H1 H2]%orb_false_elim. by rewrite Hg2, Hg1.
  - destruct (Re.run r1 s g k) as [y|] eqn:H1.
    + intros [= ->]. apply IH1 in H1 as (pre & rest & g1 & -> & HL & H & Hg).
      exists pre, rest, g1. repeat split; [by apply Lang_alt_l | done |].
      intros [H1 H2]%orb_false_elim. auto.
    + intros H. apply IH2 in H as (pre & rest & g1 & -> & HL & H & Hg).
      exists pre, rest, g1. repeat split; [by apply Lang_alt_r | done |].
      intros [H2 H3]%orb_false_elim. auto.
  - destruct (Re.run r1 s g k) as [y|] eqn:H1.
    + intros [= ->]. apply IH1 in H1 as (pre & rest & g1 & -> & HL & H & Hg).
      exists pre, rest, g1. repeat split; [by apply Lang_opt_some | done | done].
    + intros H. exists "", s, g. repeat split; [apply Lang_opt_none | done].
  - intros (pre & rest & -> & Hall & H)%star_sound.
    exists pre, rest, g. repeat split; [by constructor | done].
  - intros H. apply IH1 in H as (pre & rest & g1 & -> & HL & H & Hg).
    rewrite take_append in H.
    exists pre, rest, (Some pre). repeat split; [by constructor | done | done].
Qed.

Lemma search_sound (r : Re.regex) (s : string) (m : Re.found) :
  Re.search r s = Some m → ∃ skipped s', s = skipped +:+ s' ∧ Re.match_here r s' = Some m.
Proof.
  induction s as [|c s IH]; simpl.
  - destruct (Re.match_here r "") eqn:H; [| done]. intros [= ->]. by exists "", "".
  - destruct (Re.match_here r (String c s)) eqn:H.
    + intros [= ->]. by exists "", (String c s).
    + intros (skipped & s' & -> & Hm)%IH. by exists (String c skipped), s'.
Qed.


Lemma run_group_first {A : Type} (r1 r2 : Re.regex) (s : string) (g : option string)
      (k : string → option string → option A) (x : A) :
  Re.has_group r2 = false →
  Re.run (Re.Cat (Re.Group r1) r2) s g k = Some x →
  ∃ pre rest, Lang r1 pre ∧ k rest (Some pre) = Some x.
Proof.
  intros Hfree H. simpl in H.
  apply run_sound in H as (pre & rest & g1 & -> & HL & H & _).
  rewrite take_append in H.
  apply run_sound in H as (pre2 & rest2 & g2 & -> & _ & H & Hg).
  rewrite (Hg Hfree) in H. eauto.
Qed.


(** ** Phone numbers *)



Lemma extract_phone_number_none (html : string) :
  extract_phone_number html = None ↔
  Re.findall phone_pattern_at html = [] ∧ Re.findall phone_pattern_national html = [].
Proof.
  unfold extract_phone_number, phone_patterns. simpl.
  destruct (Re.findall phone_pattern_at html);
    destruct (Re.findall phone_pattern_national html); naive_solver.
Qed.

(** C5, on the markup [Tel: +43 664 1234567]: the first pattern matches the
    whole number, and the function returns [+43], the text of the
    pattern's group, where the claim has [+436641234567]. *)
Theorem C5_international_number_is_cut :
  extract_phone_number "Tel: +43 664 1234567" = Some "+43" ∧
  option_map Re.whole (Re.search phone_pattern_at "Tel: +43 664 1234567")
    = Some "+43 664 1234567".
Proof. split; by vm_compute. Qed.

(** ** Area *)

Lemma digit_value_nonneg (c : ascii) : Str.is_digit c = true → 0 ≤ Str.digit_value c.
Proof.
  unfold Str.is_digit, Str.digit_value.
  intros [H _]%andb_prop. apply Nat.leb_le in H. lia.
Qed.

Lemma decimal_acc_nonneg (s : string) (acc : Z) :
  0 ≤ acc → Str.forallb Str.is_digit s = true → 0 ≤ Str.decimal_acc acc s.
Proof.
  revert acc. induction s as [|c s IH]; intros acc Hacc; simpl; [done |].
  intros [Hc Hs]%andb_prop. apply IH; [| done].
  pose proof (digit_value_nonneg c Hc). lia.
Qed.

Lemma py_int_nonneg (lim : option nat) (s : string) (n : Z) :
  Str.forallb Str.is_digit s = true → py_int lim s = Ok n → 0 ≤ n.
Proof.
  intros Hs. unfold py_int. destruct s as [|c s]; [done |].
  assert (0 ≤ Str.decimal (String c s)) by (by apply decimal_acc_nonneg).
  destruct lim as [k|]; [destruct (_ <? _)%nat |]; naive_solver.
Qed.

Lemma area_pattern_group (s : string) (m : Re.found) :
  Re.match_here area_pattern s = Some m →
  ∃ d, Re.group1 m = Some d ∧ Str.forallb Str.is_digit d = true.
Proof.
  unfold Re.match_here, area_pattern. intros H.
  apply run_group_first in H as (pre & rest & HL & [= <-]); [| reflexivity].
  exists pre. split; [done |].
  inversion HL as [| |r1 r2 t1 t2 H1 H2| | | | | |]; subst.
  inversion H1 as [|p c Hc| | | | | | |]; subst.
  inversion H2 as [| | | | | | |p t Ht|]; subst.
  rewrite forallb_append. simpl. by rewrite Hc, Ht.
Qed.

Lemma extract_area_nonneg (lim : option nat) (soup : Soup) (a : Z) :
  extract_area lim soup = Ok a → 0 ≤ a.
Proof.
  unfold extract_area. induction area_selectors as [|selector rest IH]; simpl.
  - by intros [= <-].
  - destruct (select_one soup selector) as [element|]; [| done].
    destruct (Re.search area_pattern (tag_text element)) as [m|] eqn:Hm; [| done].
    apply search_sound in Hm as (skipped & s' & _ & Hm).
    apply area_pattern_group in Hm as (d & -> & Hd). simpl.
    by apply py_int_nonneg.
Qed.

(** ** Suspension, pacing and requests *)

Section Effects.
Variable E : Env.

Lemma suspend_found st : found_listings (suspend E st) = found_listings st.
Proof. unfold suspend. by destruct (stop_called E (awaits st)). Qed.

Lemma suspend_awaits st : awaits (suspend E st) = S (awaits st).
Proof. unfold suspend. by destruct (stop_called E (awaits st)). Qed.

Lemma suspend_running st :
  is_running (suspend E st) = is_running st && negb (stop_called E (awaits st)).
Proof. unfold suspend. destruct (stop_called E (awaits st)); simpl; by rewrite ?andb_true_r, ?andb_false_r. Qed.

Lemma suspend_history st :
  history (suspend E st) =
  (if stop_called E (awaits st) then [StopCalled] else []) ++ history st.
Proof. unfold suspend. by destruct (stop_called E (awaits st)). Qed.

Lemma suspend_actions st : actions (history (suspend E st)) = actions (history st).
Proof. rewrite suspend_history. by destruct (stop_called E (awaits st)). Qed.

Lemma sleep_found seconds st : found_listings (asyncio_sleep E seconds st) = found_listings st.
Proof. unfold asyncio_sleep. by rewrite suspend_found. Qed.

Lemma sleep_awaits seconds st : awaits (asyncio_sleep E seconds st) = S (awaits st).
Proof. unfold asyncio_sleep. by rewrite suspend_awaits. Qed.

Lemma sleep_actions seconds st :
  actions (history (asyncio_sleep E seconds st)) = Sleep seconds :: actions (history st).
Proof. unfold asyncio_sleep. by rewrite suspend_actions. Qed.

Lemma randint_state a b st :
  (randint E a b st).2 = skip_draws 1 st.
Proof. done. Qed.

Lemma randint_range a b st :
  a ≤ b → a ≤ (randint E a b st).1 ≤ b.
Proof.
  intros Hab. unfold randint, randbelow. simpl.
  pose proof (Nat.mod_upper_bound (rand E (draws st)) (Z.to_nat (b - a + 1))). lia.
Qed.

Lemma get_found k url ua st : found_listings (get E k url ua st).2 = found_listings st.
Proof. unfold get. simpl. by rewrite suspend_found. Qed.

(** C4: when the search page is answered with status 429, the page yields
    no listing; the scraper's own events are one request, one rate-limit
    message and one sleep of 60 seconds, in that order, and nothing is
    buffered. *)
Theorem C4_rate_limited (url category_name : string) (st : State) (response : Response) :
  session_get E (awaits st) url = Ok response →
  status response = 429 →
  ∃ user_agent st',
    get_page_listings E url category_name st = ([], st') ∧
    actions (history st') =
      Sleep 60 :: Progress MsgRateLimit :: Get SearchPage url user_agent
        :: actions (history st) ∧
    found_listings st' = found_listings st ∧
    awaits st' = (awaits st + 2)%nat.
Proof.
  intros Hget Hstatus.
  unfold get_page_listings, choice_user_agent, randbelow, get. simpl.
  rewrite Hget, Hstatus. simpl.
  eexists _, _. split; [reflexivity |].
  rewrite sleep_actions, sleep_found, sleep_awaits. simpl.
  rewrite suspend_actions, suspend_found, suspend_awaits. simpl.
  repeat split; lia.
Qed.

End Effects.

Lemma C4_rate_limited_witness :
  ∃ user_agent st',
    get_page_listings Demo.limited "https://www.willhaben.at/s?rows=25&page=1"
                      "grundstueck-wien" Demo.running = ([], st') ∧
    actions (history st') =
      [Sleep 60; Progress MsgRateLimit;
       Get SearchPage "https://www.willhaben.at/s?rows=25&page=1" user_agent] ∧
    found_listings st' = [] ∧
    awaits st' = 2%nat.
Proof.
  exact (C4_rate_limited Demo.limited "https://www.willhaben.at/s?rows=25&page=1"
           "grundstueck-wien" Demo.running
           {| status := 429; text := Ok "" |} eq_refl eq_refl).
Defined.

(** ** What the buffer holds

    A property that every listing built for an admissible category key has,
    every buffered listing keeps. *)

Section Buffer.
Variable E : Env.
Variable P : Listing → Prop.
Variable admissible : string → Prop.
Hypothesis details_P :
  ∀ url category_name st l st',
    admissible category_name →
    extract_listing_details E url category_name st = (Some l, st') → P l.

Lemma extract_listing_details_found url category_name st :
  found_listings (extract_listing_details E url category_name st).2 = found_listings st.
Proof.
  unfold extract_listing_details, choice_user_agent, randbelow, get. simpl.
  repeat case_match; simpl; by rewrite suspend_found.
Qed.

Lemma details_loop_inv urls category_name listings st :
  admissible category_name →
  Forall P listings →
  Forall P (details_loop E urls category_name listings st).1 ∧
  found_listings (details_loop E urls category_name listings st).2 = found_listings st.
Proof.
  intros Hadm. revert listings st.
  induction urls as [|url rest IH]; intros listings st Hall; simpl; [done |].
  pose proof (extract_listing_details_found url category_name st) as Hfound.
  destruct (extract_listing_details E url category_name st) as [[l|] st1] eqn:Hd;
    simpl in Hfound; rewrite <- Hfound.
  - apply IH. apply Forall_app. split; [done |].
    apply Forall_singleton. by eapply details_P.
  - by apply IH.
Qed.

Lemma get_page_listings_inv url category_name st :
  admissible category_name →
  Forall P (get_page_listings E url category_name st).1 ∧
  found_listings (get_page_listings E url category_name st).2 = found_listings st.
Proof.
  intros Hadm.
  unfold get_page_listings, choice_user_agent, randbelow, get, parse_listings_page. simpl.
  repeat case_match; simpl;
    rewrite ?sleep_found; simpl; rewrite ?suspend_found; try done.
  match goal with
  | |- context [details_loop E ?u ?c ?l ?s] =>
      destruct (details_loop_inv u c l s Hadm (Forall_nil_2 P)) as [Hlistings Hfound]
  end.
  split; [done |]. rewrite Hfound. by rewrite suspend_found.
Qed.

Lemma listing_loop_inv listings st :
  Forall P listings →
  Forall P (found_listings st) →
  Forall P (found_listings (listing_loop E listings st)).
Proof.
  revert st. induction listings as [|listing rest IH]; intros st Hls Hst; simpl; [done |].
  destruct (is_running st); simpl; [| done].
  apply Forall_cons in Hls as [Hl Hrest].
  apply IH; [done |].
  rewrite sleep_found. simpl. apply Forall_app. by split; [| apply Forall_singleton].
Qed.

Lemma page_loop_inv pages category_name base_url st :
  admissible category_name →
  Forall P (found_listings st) →
  Forall P (found_listings (page_loop E pages category_name base_url st)).
Proof.
  intros Hadm. revert st.
  induction pages as [|page rest IH]; intros st Hst; simpl; [done |].
  destruct (is_running st); simpl; [| done].
  match goal with
  | |- context [get_page_listings E ?u ?c st] =>
      destruct (get_page_listings_inv u c st Hadm) as [Hlistings Hfound];
      destruct (get_page_listings E u c st) as [listings st1]
  end.
  simpl in *. apply IH. rewrite sleep_found. simpl.
  apply listing_loop_inv; [done |]. simpl. by rewrite Hfound.
Qed.

Lemma scan_category_inv category_name base_url st :
  admissible category_name →
  Forall P (found_listings st) →
  Forall P (found_listings (scan_category E category_name base_url st)).
Proof. intros Hadm Hst. unfold scan_category. by apply page_loop_inv. Qed.

Lemma category_loop_inv categories_list st :
  Forall (fun item => admissible item.1) categories_list →
  Forall P (found_listings st) →
  Forall P (found_listings (category_loop E categories_list st)).
Proof.
  revert st.
  induction categories_list as [|[category_name base_url] rest IH];
    intros st Hadm Hst; simpl; [done |].
  destruct (is_running st); simpl; [| done].
  apply Forall_cons in Hadm as [Hadm Hrest].
  apply IH; [done |]. rewrite sleep_found. simpl.
  by apply scan_category_inv.
Qed.

Hypothesis keys_admissible : ∀ category_name, category_name ∈ category_keys → admissible category_name.

Lemma shuffled_categories_admissible st :
  Forall (fun item => admissible item.1) (shuffle_categories E st).1.
Proof.
  unfold shuffle_categories. simpl. rewrite shuffle_by_perm.
  apply Forall_forall. intros [category_name base_url] Hin.
  apply keys_admissible. unfold category_keys.
  apply list_elem_of_fmap. by exists (category_name, base_url).
Qed.

Lemma cycle_inv st :
  Forall P (found_listings st) → Forall P (found_listings (cycle E st)).
Proof.
  intros Hst. unfold cycle.
  pose proof (shuffled_categories_admissible
                (progress_callback (MsgCycle (current_cycle (next_cycle st))) (next_cycle st)))
    as Hadm.
  destruct (shuffle_categories E _) as [categories_list st3] eqn:Hshuffle.
  simpl in Hadm.
  destruct (randint E 1200 2700 _) as [cycle_delay st5] eqn:Hdelay.
  apply (f_equal snd) in Hdelay. rewrite randint_state in Hdelay.
  simpl in Hdelay. subst st5.
  rewrite sleep_found. simpl.
  apply category_loop_inv; [done |].
  unfold shuffle_categories in Hshuffle. injection Hshuffle as _ <-. done.
Qed.

Lemma continuous_scan_loop_inv cycles st :
  Forall P (found_listings st) →
  Forall P (found_listings (state_of (continuous_scan_loop E cycles st))).
Proof.
  revert st. induction cycles as [|n IH]; intros st Hst; simpl.
  - by destruct (is_running st).
  - destruct (is_running st); [| done]. by apply IH, cycle_inv.
Qed.

Lemma start_247_scraping_inv cycles st :
  Forall P (found_listings st) →
  Forall P (found_listings (state_of (start_247_scraping E cycles st))).
Proof.
  intros Hst. unfold start_247_scraping.
  destruct (is_running st); [done |]. by apply continuous_scan_loop_inv.
Qed.

End Buffer.

(** ** Rounding the quotient

    Dividing in binary64 and rounding the float gives the integer nearest
    to the exact quotient as long as the price is below 2^52. *)

Lemma round_half_even_nearest n d :
  0 < d → nearest_even n d (Float.round_half_even n d).
Proof.
  intros Hd. unfold Float.round_half_even, nearest_even.
  pose proof (Z.div_mod n d ltac:(lia)) as Hdm.
  pose proof (Z.mod_pos_bound n d Hd) as Hr.
  set (q := n / d) in *. set (r := n mod d) in *.
  destruct (Z.ltb_spec (2 * r) d).
  - repeat split; try nia.
  - destruct (Z.ltb_spec d (2 * r)).
    + repeat split; try nia.
    + assert (2 * r = d) by lia.
      destruct (Z.even q) eqn:He.
      * repeat split; try nia; done.
      * assert (Z.even (q + 1) = true).
        { rewrite Z.even_add, He. done. }
        repeat split; try nia; done.
Qed.

Lemma nearest_even_unique n d q q' :
  0 < d → nearest_even n d q → nearest_even n d q' → q = q'.
Proof.
  intros Hd (Hb & Hl & Hu) (Hb' & Hl' & Hu').
  destruct (Z.lt_trichotomy q q') as [Hlt | [-> | Hgt]]; [| done |].
  - assert (q' = q + 1) by nia. subst q'.
    assert (2 * n = (2 * q + 1) * d) as H1 by nia.
    assert (2 * n = (2 * (q + 1) - 1) * d) as H2 by nia.
    specialize (Hu H1). specialize (Hl' H2).
    rewrite Z.even_add, Hu in Hl'. done.
  - assert (q = q' + 1) by nia. subst q.
    assert (2 * n = (2 * q' + 1) * d) as H1 by nia.
    assert (2 * n = (2 * (q' + 1) - 1) * d) as H2 by nia.
    specialize (Hu' H1). specialize (Hl H2).
    rewrite Z.even_add, Hu' in Hl. done.
Qed.

Lemma round_twice p a s :
  0 < p → 0 < a → 0 < s → Z.even s = true → (2 * p ≤ a ∨ a < s) →
  Float.round_half_even (Float.round_half_even (p * s) a) s = Float.round_half_even p a.
Proof.
  intros Hp Ha Hs Hev Hcase.
  apply Z.even_spec in Hev as [h Hh].
  pose proof (round_half_even_nearest (p * s) a Ha) as Hm.
  set (m := Float.round_half_even (p * s) a) in *.
  pose proof (round_half_even_nearest p a Ha) as Hq.
  set (q := Float.round_half_even p a) in *.
  apply (nearest_even_unique m s); [done | by apply round_half_even_nearest |].
  destruct Hm as (Hmb & Hml & Hmu). destruct Hq as (Hqb & Hql & Hqu).
  destruct Hcase as [Hsmall | Hbig].
  - assert (q = 0) as ->.
    { apply (nearest_even_unique p a); [done | done |].
      unfold nearest_even. repeat split; try lia. }
    assert (0 ≤ m) by nia.
    assert ((2 * m - 1) * a ≤ s * a) by nia.
    assert (2 * m - 1 ≤ s) by nia.
    unfold nearest_even. repeat split; try lia.
  - assert ((2 * q - 1) * s * a ≤ (2 * m + 1) * a) by nia.
    assert ((2 * q - 1) * s ≤ 2 * m + 1) by nia.
    assert ((2 * m - 1) * a ≤ (2 * q + 1) * s * a) by nia.
    assert (2 * m - 1 ≤ (2 * q + 1) * s) by nia.
    unfold nearest_even. repeat split; try (subst s; lia).
    + intros Htie. apply Hql.
      assert (s * (2 * p - (2 * q - 1) * a) ≤ a) by nia.
      nia.
    + intros Htie. apply Hqu.
      assert (s * ((2 * q + 1) * a - 2 * p) ≤ a) by nia.
      nia.
Qed.

Lemma log2_facts p a :
  0 < p < 2 ^ 52 → 0 < a →
  let e0 := Z.log2 p - Z.log2 a - 53 in
  ∀ e1, (e1 = e0 ∨ e1 = e0 + 1) →
  let e := Z.max e1 (-1074) in
  e < 0 ∧ (2 * p ≤ a ∨ a < 2 ^ (- e)).
Proof.
  intros [Hp Hp52] Ha e0 e1 He1 e.
  pose proof (Z.log2_spec p Hp) as [Hpl Hpu].
  pose proof (Z.log2_spec a Ha) as [Hal Hau].
  pose proof (Z.log2_nonneg p). pose proof (Z.log2_nonneg a).
  assert (Z.log2 p < 52) by (by apply Z.log2_lt_pow2).
  split; [lia |].
  destruct (Z_lt_le_dec e1 (-1074)) as [Hclamp | Hfree].
  - left. assert (Z.log2 p + 2 ≤ Z.log2 a) by lia.
    assert (2 ^ (Z.log2 p + 2) ≤ 2 ^ Z.log2 a) by (apply Z.pow_le_mono_r; lia).
    replace (Z.log2 p + 2) with (Z.succ (Z.log2 p) + 1) in * by lia.
    rewrite Z.pow_add_r in * by lia. lia.
  - right. assert (e = e1) as -> by lia.
    assert (2 ^ Z.succ (Z.log2 a) ≤ 2 ^ (- e1)) by (apply Z.pow_le_mono_r; lia).
    lia.
Qed.

Lemma eur_per_m2_of_exact p a :
  0 < p < 2 ^ 52 → 0 < a →
  eur_per_m2_of p a = Ok (Float.round_half_even p a).
Proof.
  intros Hp Ha. unfold eur_per_m2_of, Float.true_div.
  destruct (Z.ltb_spec 0 a); [| lia].
  destruct (Z.eqb_spec p 0); [lia |].
  set (e0 := Z.log2 p - Z.log2 a - 53).
  set (e1 := if _ <=? _ then e0 + 1 else e0).
  assert (e1 = e0 ∨ e1 = e0 + 1) as He1 by (subst e1; case_match; auto).
  destruct (log2_facts p a Hp Ha e1 He1) as [Hneg Hcase].
  set (e := Z.max e1 (-1074)) in *.
  destruct (Z.ltb_spec 971 e); [lia |].
  destruct (Z.eqb_spec e 971); [lia |]. simpl.
  unfold Float.round. simpl.
  unfold Float.scaled_num, Float.scaled_den.
  destruct (Z.ltb_spec e 0); [| lia].
  f_equal. apply round_twice; [lia | lia | apply Z.pow_pos_nonneg; lia | | done].
  replace (- e) with (Z.succ (- e - 1)) by lia.
  rewrite Z.pow_succ_r by lia. rewrite Z.even_mul. done.
Qed.


(** ** Listings that are built *)

Section Details.
Variable E : Env.

Lemma details_of_page_some page_url category_name html clock l :
  details_of_page E page_url category_name html clock = Ok (Some l) →
  let soup := BeautifulSoup E html in
  url l = page_url ∧
  price l = extract_price (int_max_str_digits E) soup ∧
  0 < price l ∧
  is_private (str_lower E (get_text soup)) = true ∧
  extract_area (int_max_str_digits E) soup = Ok (area l) ∧
  eur_per_m2_of (price l) (area l) = Ok (eur_per_m2 l) ∧
  region l = region_of category_name ∧
  category l = listing_category_of category_name.
Proof.
  unfold details_of_page.
  destruct (extract_area _ _) as [a|] eqn:Harea; [| done].
  destruct (is_private _) eqn:Hprivate; simpl; [| done].
  destruct (Z.ltb_spec 0 (extract_price (int_max_str_digits E) (BeautifulSoup E html)));
    [| done].
  destruct (eur_per_m2_of _ a) as [eur|] eqn:Heur; [| done].
  intros [= <-]. simpl. done.
Qed.

Lemma extract_listing_details_some url category_name st l st' :
  extract_listing_details E url category_name st = (Some l, st') →
  ∃ n response html clock,
    session_get E n url = Ok response ∧
    status response = 200 ∧
    text response = Ok html ∧
    details_of_page E url category_name html clock = Ok (Some l).
Proof.
  unfold extract_listing_details, choice_user_agent, randbelow, get. simpl.
  destruct (session_get E (awaits st) url) as [response|] eqn:Hget; [| done].
  destruct (Z.eqb_spec (status response) 200) as [Hstatus|]; simpl; [| done].
  destruct (text response) as [html|] eqn:Htext; [| done].
  destruct (details_of_page _ _ _ _ _) as [[l'|]|] eqn:Hd; [| done | done].
  intros [= -> _]. eauto 10.
Qed.

Lemma is_private_keyword text_content :
  is_private text_content = true →
  ∃ keyword, keyword ∈ private_keywords ∧ Substring keyword text_content.
Proof.
  unfold is_private. intros (keyword & Hin & Hc)%existsb_exists.
  exists keyword. split; [by apply list_elem_of_In | by apply contains_spec].
Qed.

Lemma extract_listing_details_accepted url category_name st l st' :
  extract_listing_details E url category_name st = (Some l, st') → Accepted E l.
Proof.
  intros (n & response & html & clock & Hget & Hstatus & Htext & Hd)%extract_listing_details_some.
  apply details_of_page_some in Hd as (Hurl & Hprice & Hpos & Hprivate & _).
  split; [done |].
  apply is_private_keyword in Hprivate as (keyword & Hin & Hsub).
  exists n, response, html, keyword. by rewrite Hurl.
Qed.

Lemma eur_per_m2_of_spec p a eur :
  eur_per_m2_of p a = Ok eur →
  (0 < a → ∃ x, Float.true_div p a = Ok x ∧ eur = Float.round x) ∧ (a = 0 → eur = 0).
Proof.
  unfold eur_per_m2_of. destruct (Z.ltb_spec 0 a).
  - destruct (Float.true_div p a) as [x|]; [| done].
    intros [= <-]. split; [eauto | lia].
  - intros [= <-]. split; [lia | done].
Qed.

Lemma extract_listing_details_price_per_area url category_name st l st' :
  extract_listing_details E url category_name st = (Some l, st') → PricePerArea l.
Proof.
  intros (n & response & html & clock & _ & _ & _ & Hd)%extract_listing_details_some.
  apply details_of_page_some in Hd as (_ & _ & _ & _ & Harea & Heur & _).
  apply extract_area_nonneg in Harea.
  pose proof Heur as Hexact.
  apply eur_per_m2_of_spec in Heur as [Hpos Hzero].
  split; [done |]. split; [done |]. split; [| done].
  intros Ha Hp. rewrite eur_per_m2_of_exact in Hexact by done.
  injection Hexact as <-. apply round_half_even_nearest; lia.
Qed.

Lemma region_of_values category_name :
  region_of category_name = "wien" ∨ region_of category_name = "niederoesterreich".
Proof. unfold region_of. destruct (Str.contains _ _); auto. Qed.

Lemma listing_category_of_values category_name :
  listing_category_of category_name = "eigentumswohnung"
  ∨ listing_category_of category_name = "grundstueck".
Proof. unfold listing_category_of. destruct (Str.contains _ _); auto. Qed.

Lemma extract_listing_details_derived url category_name st l st' :
  extract_listing_details E url category_name st = (Some l, st') →
  DerivedFrom category_name l.
Proof.
  intros (n & response & html & clock & _ & _ & _ & Hd)%extract_listing_details_some.
  apply details_of_page_some in Hd as (_ & _ & _ & _ & _ & _ & Hr & Hc).
  unfold DerivedFrom. rewrite Hr, Hc. unfold region_of, listing_category_of.
  destruct (Str.contains "wien" category_name) eqn:Hw;
    destruct (Str.contains "eigentumswohnung" category_name) eqn:He;
    repeat split; intros H; try done;
    try (apply contains_spec in H; congruence);
    try (exfalso; apply H; by apply contains_spec).
Qed.

Lemma extract_listing_details_classified url category_name st l st' :
  category_name ∈ category_keys →
  extract_listing_details E url category_name st = (Some l, st') → Classified l.
Proof.
  intros Hkey Hd. pose proof (extract_listing_details_derived _ _ _ _ _ Hd) as Hder.
  apply extract_listing_details_some in Hd as (n & response & html & clock & _ & _ & _ & Hd).
  apply details_of_page_some in Hd as (_ & _ & _ & _ & _ & _ & Hr & Hc).
  split; [by exists category_name |].
  rewrite Hr, Hc. split; [apply region_of_values | apply listing_category_of_values].
Qed.

(** C1: a listing is built only from a page answered with status 200 whose
    price is positive and whose lower-cased text holds a private-seller
    keyword; a page that fails either test yields no listing; and whatever
    the scan loop adds to a buffer of such listings is such a listing. *)
Theorem C1_buffer_holds_accepted_listings :
  (∀ url category_name st l st',
     extract_listing_details E url category_name st = (Some l, st') → Accepted E l) ∧
  (∀ page_url category_name html clock l,
     is_private (str_lower E (get_text (BeautifulSoup E html))) = false
     ∨ extract_price (int_max_str_digits E) (BeautifulSoup E html) ≤ 0 →
     details_of_page E page_url category_name html clock ≠ Ok (Some l)) ∧
  (∀ cycles st,
     Forall (Accepted E) (found_listings st) →
     Forall (Accepted E) (found_listings (state_of (continuous_scan_loop E cycles st)))
     ∧ Forall (Accepted E) (found_listings (state_of (start_247_scraping E cycles st)))).
Proof.
  split; [apply extract_listing_details_accepted |]. split.
  { intros page_url category_name html clock l Hfails Hd.
    apply details_of_page_some in Hd as (_ & Hprice & Hpos & Hprivate & _).
    destruct Hfails as [Hnot | Hle]; [congruence | lia]. }
  intros cycles st Hst. split.
  - apply (continuous_scan_loop_inv E (Accepted E) (fun _ => True)); auto.
    intros ? ? ? ? ? _. apply extract_listing_details_accepted.
  - apply (start_247_scraping_inv E (Accepted E) (fun _ => True)); auto.
    intros ? ? ? ? ? _. apply extract_listing_details_accepted.
Qed.

(** C2: the price per square metre of a listing that is built is the
    rounded quotient when the area is positive and 0 when the area is 0;
    the area is never negative, and with the area 0 nothing is divided.
    The buffer holds such listings only. *)
Theorem C2_price_per_area :
  (∀ url category_name st l st',
     extract_listing_details E url category_name st = (Some l, st') → PricePerArea l) ∧
  (∀ price, eur_per_m2_of price 0 = Ok 0) ∧
  (∀ cycles st,
     Forall PricePerArea (found_listings st) →
     Forall PricePerArea (found_listings (state_of (start_247_scraping E cycles st)))).
Proof.
  split; [apply extract_listing_details_price_per_area |]. split; [done |].
  intros cycles st Hst.
  apply (start_247_scraping_inv E PricePerArea (fun _ => True)); auto.
  intros ? ? ? ? ? _. apply extract_listing_details_price_per_area.
Qed.

(** C10: region and category of a listing follow from the category key it
    was built under, by the two substring tests; the keys the loop uses are
    those fixed in [categories], so every buffered listing has one of the
    two regions and one of the two categories. *)
Theorem C10_region_and_category :
  (∀ url category_name st l st',
     extract_listing_details E url category_name st = (Some l, st') →
     DerivedFrom category_name l) ∧
  (∀ cycles st,
     Forall Classified (found_listings st) →
     Forall Classified (found_listings (state_of (start_247_scraping E cycles st)))).
Proof.
  split; [apply extract_listing_details_derived |].
  intros cycles st Hst.
  apply (start_247_scraping_inv E Classified (fun c => c ∈ category_keys)); auto.
  intros url category_name st0 l st' Hkey. by apply extract_listing_details_classified.
Qed.

End Details.

Lemma C1_buffer_holds_accepted_listings_witness :
  Forall (Accepted Demo.quiet)
         (found_listings (state_of (start_247_scraping Demo.quiet 1 init)))
  ∧ length (found_listings (state_of (start_247_scraping Demo.quiet 1 init))) = 24%nat.
Proof.
  destruct (C1_buffer_holds_accepted_listings Demo.quiet) as (_ & _ & Hloop).
  destruct (Hloop 1%nat init) as [_ Hstart]; [constructor |].
  split; [exact Hstart | by vm_compute].
Defined.

Lemma C2_price_per_area_witness :
  Forall PricePerArea (found_listings (state_of (start_247_scraping Demo.quiet 1 init)))
  ∧ (fun l => (price l, area l, eur_per_m2 l))
      <$> head (found_listings (state_of (start_247_scraping Demo.quiet 1 init)))
    = Some (350000, 75, 4667).
Proof.
  destruct (C2_price_per_area Demo.quiet) as (_ & _ & Hloop).
  split; [apply (Hloop 1%nat init); constructor | by vm_compute].
Defined.

Lemma C10_region_and_category_witness :
  Forall Classified (found_listings (state_of (start_247_scraping Demo.quiet 1 init)))
  ∧ (fun l => (category l, region l))
      <$> head (found_listings (state_of (start_247_scraping Demo.quiet 1 init)))
    = Some ("grundstueck", "wien").
Proof.
  destruct (C10_region_and_category Demo.quiet) as [_ Hloop].
  split; [apply (Hloop 1%nat init); constructor | by vm_compute].
Defined.

(** ** Stopping *)




Section Stopping.
Variable E : Env.
























End Stopping.




(** ** Checks of the model on concrete inputs *)

Example phone_national :
  extract_phone_number "Tel: 0664 1234567 abc" = Some "06641234567".
Proof. by vm_compute. Qed.

Example phone_absent : extract_phone_number "keine Nummer" = None.
Proof. by vm_compute. Qed.

Example area_of_text :
  option_map Re.group1
    (Re.search area_pattern ("Wohnflaeche ca. 75 m" +:+ superscript_two))
  = Some (Some "75").
Proof. by vm_compute. Qed.

Example eur_half_to_even : eur_per_m2_of 5 2 = Ok 2 ∧ eur_per_m2_of 7 2 = Ok 4.
Proof. by vm_compute. Qed.

Example eur_usual : eur_per_m2_of 350000 75 = Ok 4667.
Proof. by vm_compute. Qed.

Example eur_beyond_53_bits : eur_per_m2_of (2 ^ 53 + 1) 1 = Ok (2 ^ 53).
Proof. by vm_compute. Qed.

Example eur_overflow : eur_per_m2_of (10 ^ 400) 1 = Raise "OverflowError".
Proof. by vm_compute. Qed.

Example recent_last_two :
  url <$> get_recent_listings 1 two_found
  = ["https://www.willhaben.at/iad/immobilien/d/B"].
Proof. by vm_compute. Qed.

Example stopped_run_history :
  actions (take 8 (history stopped_run)) =
  [Sleep 1208; Progress (MsgCycleComplete 20); Sleep 187; Progress (MsgPause 3); Sleep 21;
   Progress (MsgPage 1 2 "grundstueck-wien");
   Get DetailPage "https://www.willhaben.at/iad/immobilien/d/AAA?x=1"
       "Mozilla/5.0 (X11; Linux x86_64) AppleWebKit/537.36 (KHTML, like Gecko) Chrome/120.0.0.0 Safari/537.36";
   Get DetailPage "https://www.willhaben.at/iad/immobilien/d/AAA"
       "Mozilla/5.0 (Macintosh; Intel Mac OS X 10_15_7) AppleWebKit/537.36 (KHTML, like Gecko) Chrome/120.0.0.0 Safari/537.36"].
Proof. by vm_compute. Qed.

(** * Further properties *)

(** ** Recent listings, every limit *)

(** X1: [get_recent_listings] returns the last [limit] buffered listings
    (all of them when there are fewer) for a positive [limit], and the
    buffer without its first [-limit] listings for a [limit] that is not
    positive; what it returns is always an end piece of the buffer. *)
Theorem X1_get_recent_listings_by_limit (limit : Z) (st : State) :
  (0 < limit →
   get_recent_listings limit st = last_n (Z.to_nat limit) (found_listings st)
   ∧ length (get_recent_listings limit st)
     = Nat.min (Z.to_nat limit) (length (found_listings st))) ∧
  (limit ≤ 0 →
   get_recent_listings limit st = drop (Z.to_nat (- limit)) (found_listings st)) ∧
  get_recent_listings limit st `suffix_of` found_listings st.
Proof.
  assert (limit ≤ 0 →
          get_recent_listings limit st = drop (Z.to_nat (- limit)) (found_listings st))
    as Hneg.
  { intros Hle. unfold get_recent_listings.
    destruct (found_listings st) as [|x l] eqn:Hl; [by rewrite drop_nil |].
    unfold slice_from. destruct (Z.ltb_spec (- limit) 0); [lia |].
    destruct (Z.min_spec (- limit) (Z.of_nat (length (x :: l)))) as [[_ ->] | [Hge ->]];
      [done |].
    rewrite Nat2Z.id. rewrite !drop_ge; [done | lia | lia]. }
  split; [| split; [done |]].
  - intros Hpos. destruct (get_recent_listings_positive limit st Hpos) as [-> _].
    split; [done |]. unfold last_n. rewrite length_drop. lia.
  - destruct (Z_lt_le_dec 0 limit) as [Hpos | Hle].
    + destruct (get_recent_listings_positive limit st Hpos) as [-> _].
      apply suffix_drop.
    + rewrite Hneg by done. apply suffix_drop.
Qed.

Lemma X1_get_recent_listings_by_limit_witness :
  url <$> get_recent_listings 1 two_found = ["https://www.willhaben.at/iad/immobilien/d/B"]
  ∧ url <$> get_recent_listings (-1) two_found
    = ["https://www.willhaben.at/iad/immobilien/d/B"]
  ∧ length (get_recent_listings 5 two_found) = 2%nat.
Proof.
  destruct (X1_get_recent_listings_by_limit 1 two_found) as ([H1 _] & _ & _); [lia |].
  destruct (X1_get_recent_listings_by_limit (-1) two_found) as (_ & H2 & _).
  destruct (X1_get_recent_listings_by_limit 5 two_found) as ([_ H3] & _ & _); [lia |].
  rewrite H1, H2, H3; [| lia]. repeat split; reflexivity.
Defined.

(** ** Prices *)




(** ** What the patterns match *)













(** ** Areas *)






(** ** Pages without the expected elements *)

Lemma first_text_default (soup : Soup) (selectors : list string) (dflt : string) :
  (∀ selector, select soup selector = []) → first_text soup selectors dflt = dflt.
Proof.
  intros Hblank. induction selectors as [|selector rest IH]; simpl; [done |].
  unfold select_one. by rewrite Hblank.
Qed.

(** X5: on a page in which none of the selectors finds an element, the
    extractors return their defaults (the two unknown texts, the empty
    description, price 0, area 0), and the page yields no listing, whatever
    its text says. *)
Theorem X5_page_without_elements (E : Env) (page_url category_name html : string)
        (clock : nat) :
  (∀ selector, select (BeautifulSoup E html) selector = []) →
  let soup := BeautifulSoup E html in
  extract_title soup = "Unknown Title" ∧
  extract_location soup = "Unknown Location" ∧
  extract_description soup = "" ∧
  extract_price (int_max_str_digits E) soup = 0 ∧
  extract_area (int_max_str_digits E) soup = Ok 0 ∧
  details_of_page E page_url category_name html clock = Ok None.
Proof.
  intros Hblank soup.
  assert (extract_price (int_max_str_digits E) soup = 0) as Hprice.
  { unfold extract_price. induction price_selectors as [|selector rest IH]; simpl; [done |].
    unfold select_one. subst soup. by rewrite Hblank. }
  assert (extract_area (int_max_str_digits E) soup = Ok 0) as Harea.
  { unfold extract_area. induction area_selectors as [|selector rest IH]; simpl; [done |].
    unfold select_one. subst soup. by rewrite Hblank. }
  repeat split; try done; try (by apply first_text_default).
  unfold details_of_page. fold soup. rewrite Harea, Hprice.
  by rewrite andb_false_r.
Qed.

Lemma X5_page_without_elements_witness :
  extract_title (blank_soup "Privatverkauf") = "Unknown Title" ∧
  extract_location (blank_soup "Privatverkauf") = "Unknown Location" ∧
  extract_description (blank_soup "Privatverkauf") = "" ∧
  extract_price (Some 4300%nat) (blank_soup "Privatverkauf") = 0 ∧
  extract_area (Some 4300%nat) (blank_soup "Privatverkauf") = Ok 0 ∧
  details_of_page blank "https://www.willhaben.at/iad/immobilien/d/AAA"
                  "grundstueck-wien" "Privatverkauf" 1 = Ok None.
Proof.
  apply (X5_page_without_elements blank "https://www.willhaben.at/iad/immobilien/d/AAA"
           "grundstueck-wien" "Privatverkauf" 1).
  reflexivity.
Defined.

(** ** Discovery loses no anchor *)

(** X6: every anchor found by one of the three selectors whose [href]
    holds the listing path has its URL among those the page loop visits. *)
Theorem X6_discover_keeps_every_listing_anchor
        (E : Env) (soup : Soup) (selector : string) (link : Tag) :
  selector ∈ link_selectors →
  link ∈ select soup selector →
  Substring listing_path (get_href link) →
  kept_url (get_href link) ∈ iterate E (discover soup).
Proof.
  intros Hs Hl Hc. apply elem_of_iterate, elem_of_discover.
  exists selector, link. by rewrite contains_spec.
Qed.

Lemma X6_discover_keeps_every_listing_anchor_witness :
  "https://www.willhaben.at/iad/immobilien/d/AAA"
    ∈ iterate Demo.quiet (discover Demo.search_soup).
Proof.
  apply (X6_discover_keeps_every_listing_anchor Demo.quiet Demo.search_soup
           ".result-item a" (Demo.anchor "/iad/immobilien/d/AAA")).
  - by vm_compute; repeat constructor.
  - by vm_compute; repeat constructor.
  - by exists "", "AAA".
Defined.

(** ** Pacing and growth *)

Lemma grows_refl st : grows st st.
Proof. exists [], []. rewrite app_nil_r. repeat split; try done; lia. Qed.

Lemma grows_trans st1 st2 st3 : grows st1 st2 → grows st2 st3 → grows st1 st3.
Proof.
  intros (new1 & added1 & Hh1 & Hp1 & Hf1 & Hd1 & Hc1)
         (new2 & added2 & Hh2 & Hp2 & Hf2 & Hd2 & Hc2).
  exists (new2 ++ new1), (added1 ++ added2). repeat split; try lia.
  - by rewrite Hh2, Hh1, app_assoc.
  - by apply Forall_app.
  - by rewrite Hf2, Hf1, app_assoc.
Qed.

Lemma grows_same st st' :
  history st' = history st → found_listings st' = found_listings st →
  (draws st ≤ draws st')%nat → current_cycle st ≤ current_cycle st' →
  grows st st'.
Proof.
  intros Hh Hf Hd Hc. exists [], []. rewrite app_nil_r. repeat split; try done.
Qed.

Lemma grows_record e st : paced e → grows st (record e st).
Proof.
  intros He. exists [e], []. rewrite app_nil_r. simpl.
  repeat split; try done; try lia. by apply Forall_singleton.
Qed.

Lemma grows_append listing st : grows st (append_listing listing st).
Proof. exists [], [listing]. simpl. repeat split; try done; lia. Qed.

Section Growth.
Variable E : Env.

Lemma grows_suspend st : grows st (suspend E st).
Proof.
  exists (if stop_called E (awaits st) then [StopCalled] else []), [].
  rewrite suspend_history, suspend_found, app_nil_r.
  unfold suspend. destruct (stop_called E (awaits st)); simpl;
    repeat split; try done; try lia.
  by apply Forall_singleton.
Qed.

Lemma grows_sleep seconds st :
  paced (Sleep seconds) → grows st (asyncio_sleep E seconds st).
Proof.
  intros Hp. unfold asyncio_sleep.
  eapply grows_trans; [| apply grows_suspend]. by apply grows_record.
Qed.

Lemma grows_progress m st : grows st (progress_callback m st).
Proof. by apply grows_record. Qed.

Lemma grows_skip_draws n st : grows st (skip_draws n st).
Proof. apply grows_same; simpl; try done; lia. Qed.

(** A sleep of a length drawn between [a] and [b]. *)
Lemma grows_random_sleep a b st :
  a ≤ b →
  (∀ s, a ≤ s ≤ b → paced (Sleep s)) →
  grows st (asyncio_sleep E (randint E a b st).1 (randint E a b st).2).
Proof.
  intros Hab Hp. rewrite randint_state.
  eapply grows_trans; [apply grows_skip_draws |].
  apply grows_sleep, Hp. by apply randint_range.
Qed.

Lemma grows_get k url user_agent st : grows st (get E k url user_agent st).2.
Proof.
  unfold get. simpl.
  eapply grows_trans; [| apply grows_suspend]. by apply grows_record.
Qed.

Lemma grows_extract_listing_details url category_name st :
  grows st (extract_listing_details E url category_name st).2.
Proof.
  assert (grows st (get E DetailPage url
                      (default "" (user_agents !! (rand E (draws st) mod 3)%nat))
                      (skip_draws 1 st)).2) as H.
  { eapply grows_trans; [apply grows_skip_draws | apply grows_get]. }
  unfold extract_listing_details, choice_user_agent, randbelow. simpl.
  unfold get in *. simpl in *. repeat case_match; exact H.
Qed.

Lemma grows_details_loop urls category_name listings st :
  grows st (details_loop E urls category_name listings st).2.
Proof.
  revert listings st. induction urls as [|url rest IH]; intros listings st; simpl.
  - apply grows_refl.
  - pose proof (grows_extract_listing_details url category_name st) as H.
    destruct (extract_listing_details E url category_name st) as [[l|] st1];
      (eapply grows_trans; [exact H | apply IH]).
Qed.

Lemma grows_get_page_listings url category_name st :
  grows st (get_page_listings E url category_name st).2.
Proof.
  assert (grows st (get E SearchPage url
                      (default "" (user_agents !! (rand E (draws st) mod 3)%nat))
                      (skip_draws 1 st)).2) as H.
  { eapply grows_trans; [apply grows_skip_draws | apply grows_get]. }
  unfold get_page_listings, choice_user_agent, randbelow, parse_listings_page. simpl.
  unfold get in *. simpl in *.
  repeat case_match; simpl;
    (eapply grows_trans; [exact H |]);
    try apply grows_progress;
    try apply grows_details_loop.
  eapply grows_trans; [apply grows_progress |].
  apply grows_sleep. simpl. lia.
Qed.

Lemma listing_loop_cons listing rest st :
  listing_loop E (listing :: rest) st =
  if negb (is_running st) then st
  else listing_loop E rest
         (asyncio_sleep E
            (randint E 5 12 (progress_callback (MsgFound (title listing) (price listing))
                                               (append_listing listing st))).1
            (randint E 5 12 (progress_callback (MsgFound (title listing) (price listing))
                                               (append_listing listing st))).2).
Proof. reflexivity. Qed.

Lemma grows_listing_loop listings st : grows st (listing_loop E listings st).
Proof.
  revert st. induction listings as [|listing rest IH]; intros st.
  - apply grows_refl.
  - rewrite listing_loop_cons. destruct (is_running st); cbn [negb]; cbv zeta; [| apply grows_refl].
    eapply grows_trans; [| apply IH].
    eapply grows_trans; [| apply grows_random_sleep; [lia | simpl; lia]].
    eapply grows_trans; [apply grows_append | apply grows_progress].
Qed.

Lemma page_loop_cons page rest category_name base_url st :
  page_loop E (page :: rest) category_name base_url st =
  if negb (is_running st) then st
  else
    let fetched :=
      get_page_listings E (base_url +:+ "&page=" +:+ Str.of_Z page) category_name st in
    let st3 :=
      listing_loop E fetched.1
        (progress_callback (MsgPage page (length fetched.1) category_name) fetched.2) in
    page_loop E rest category_name base_url
      (asyncio_sleep E (randint E 15 30 st3).1 (randint E 15 30 st3).2).
Proof.
  simpl. destruct (is_running st); simpl; [| done].
  by destruct (get_page_listings E _ category_name st).
Qed.

Lemma grows_page_loop pages category_name base_url st :
  grows st (page_loop E pages category_name base_url st).
Proof.
  revert st. induction pages as [|page rest IH]; intros st.
  - apply grows_refl.
  - rewrite page_loop_cons. destruct (is_running st); cbn [negb]; cbv zeta; [| apply grows_refl].
    eapply grows_trans; [| apply IH].
    eapply grows_trans; [| apply grows_random_sleep; [lia | simpl; lia]].
    eapply grows_trans; [| apply grows_listing_loop].
    eapply grows_trans; [apply grows_get_page_listings | apply grows_progress].
Qed.

Lemma grows_scan_category category_name base_url st :
  grows st (scan_category E category_name base_url st).
Proof.
  unfold scan_category.
  eapply grows_trans; [apply grows_progress | apply grows_page_loop].
Qed.

Lemma category_loop_cons category_name base_url rest st :
  category_loop E ((category_name, base_url) :: rest) st =
  if negb (is_running st) then st
  else
    let st1 := scan_category E category_name base_url st in
    category_loop E rest
      (asyncio_sleep E (randint E 180 480 st1).1
         (progress_callback (MsgPause ((randint E 180 480 st1).1 / 60))
                            (randint E 180 480 st1).2)).
Proof. reflexivity. Qed.

Lemma grows_category_loop categories_list st :
  grows st (category_loop E categories_list st).
Proof.
  revert st. induction categories_list as [|[category_name base_url] rest IH]; intros st.
  - apply grows_refl.
  - rewrite category_loop_cons. destruct (is_running st); cbn [negb]; cbv zeta; [| apply grows_refl].
    eapply grows_trans; [| apply IH].
    eapply grows_trans; [apply grows_scan_category |].
    rewrite randint_state.
    eapply grows_trans; [apply grows_skip_draws |].
    eapply grows_trans; [apply grows_progress |].
    apply grows_sleep. pose proof (randint_range E 180 480
      (scan_category E category_name base_url st) ltac:(lia)). simpl. lia.
Qed.

Lemma cycle_unfold st :
  cycle E st =
  let st2 := progress_callback (MsgCycle (current_cycle (next_cycle st))) (next_cycle st) in
  let st4 := category_loop E (shuffle_categories E st2).1 (shuffle_categories E st2).2 in
  asyncio_sleep E (randint E 1200 2700 st4).1
    (progress_callback (MsgCycleComplete ((randint E 1200 2700 st4).1 / 60))
                       (randint E 1200 2700 st4).2).
Proof. reflexivity. Qed.

Lemma grows_cycle st : grows st (cycle E st).
Proof.
  rewrite cycle_unfold. cbv zeta.
  eapply grows_trans; [apply (grows_same st (next_cycle st)); simpl; try done; lia |].
  eapply grows_trans; [apply grows_progress |].
  unfold shuffle_categories at 2. cbn [snd].
  eapply grows_trans; [apply grows_skip_draws |].
  eapply grows_trans; [apply grows_category_loop |].
  rewrite randint_state.
  eapply grows_trans; [apply grows_skip_draws |].
  eapply grows_trans; [apply grows_progress |].
  apply grows_sleep.
  match goal with
  | |- context [randint E 1200 2700 ?s] =>
      pose proof (randint_range E 1200 2700 s ltac:(lia))
  end.
  simpl. lia.
Qed.

Lemma grows_continuous_scan_loop cycles st :
  grows st (state_of (continuous_scan_loop E cycles st)).
Proof.
  revert st. induction cycles as [|n IH]; intros st; simpl.
  - destruct (is_running st); apply grows_refl.
  - destruct (is_running st); [| apply grows_refl].
    eapply grows_trans; [apply grows_cycle | apply IH].
Qed.

Lemma grows_start_247_scraping cycles st :
  grows st (state_of (start_247_scraping E cycles st)).
Proof.
  unfold start_247_scraping. destruct (is_running st); simpl.
  - apply grows_progress.
  - eapply grows_trans; [| apply grows_continuous_scan_loop].
    eapply grows_trans; [| apply grows_progress].
    by apply grows_same.
Qed.


(** X8: a run only adds to the end of the buffer: the listings buffered
    before are still there, in place, so [total_found] never falls; nor
    does the cycle counter. *)
Theorem X8_buffer_is_append_only (cycles : nat) (st : State) :
  let st' := state_of (start_247_scraping E cycles st) in
  found_listings st `prefix_of` found_listings st' ∧
  (status_total_found (get_status st) ≤ status_total_found (get_status st'))%nat ∧
  status_current_cycle (get_status st) ≤ status_current_cycle (get_status st').
Proof.
  destruct (grows_start_247_scraping cycles st) as (new & added & _ & _ & Hf & _ & Hc).
  cbv zeta. simpl. rewrite Hf. split; [by exists added |].
  split; [rewrite length_app; lia | done].
Qed.

End Growth.

(** ** Which pages are requested *)

Lemma searches_app (new2 new1 : list Event) :
  searches (new2 ++ new1) = searches new1 ++ searches new2.
Proof. unfold searches. by rewrite omap_app, rev_app_distr. Qed.

Lemma details_app (new2 new1 : list Event) :
  details (new2 ++ new1) = details new1 ++ details new2.
Proof. unfold details. by rewrite omap_app, rev_app_distr. Qed.

Section Trail.
Variable E : Env.

Lemma trail_refl st : trail E st st [] [].
Proof. exists []. repeat split; try done. Qed.

Lemma trail_trans st1 st2 st3 ss1 ds1 ss2 ds2 :
  trail E st1 st2 ss1 ds1 → trail E st2 st3 ss2 ds2 →
  trail E st1 st3 (ss1 ++ ss2) (ds1 ++ ds2).
Proof.
  intros (new1 & Hh1 & Hs1 & Hd1 & Ha1 & Hc1 & Hr1)
         (new2 & Hh2 & Hs2 & Hd2 & Ha2 & Hc2 & Hr2).
  exists (new2 ++ new1). repeat split.
  - by rewrite Hh2, Hh1, app_assoc.
  - by rewrite searches_app, Hs1, Hs2.
  - by rewrite details_app, Hd1, Hd2.
  - lia.
  - congruence.
  - intros Hquiet. rewrite Hr2, Hr1; [done | |]; intros k Hk; apply Hquiet; lia.
Qed.

(** Composition when the lists to reach are given in another shape. *)
Lemma trail_trans_eq st1 st2 st3 ss1 ds1 ss2 ds2 ss ds :
  trail E st1 st2 ss1 ds1 → trail E st2 st3 ss2 ds2 →
  ss = ss1 ++ ss2 → ds = ds1 ++ ds2 →
  trail E st1 st3 ss ds.
Proof. intros H1 H2 -> ->. by eapply trail_trans. Qed.

(** A quiet stretch after, or before, another. *)
Lemma trail_after st1 st2 st3 ss ds :
  trail E st1 st2 ss ds → trail E st2 st3 [] [] → trail E st1 st3 ss ds.
Proof. intros H1 H2. eapply trail_trans_eq; [exact H1 | exact H2 | ..]; by rewrite app_nil_r. Qed.

Lemma trail_before st1 st2 st3 ss ds :
  trail E st1 st2 [] [] → trail E st2 st3 ss ds → trail E st1 st3 ss ds.
Proof. intros H1 H2. by eapply trail_trans_eq. Qed.

Lemma trail_same st st' :
  history st' = history st → awaits st' = awaits st →
  current_cycle st' = current_cycle st → is_running st' = is_running st →
  trail E st st' [] [].
Proof.
  intros Hh Ha Hc Hr. exists []. repeat split; try done. lia.
Qed.

Lemma trail_record e st :
  trail E st (record e st) (searches [e]) (details [e]).
Proof. exists [e]. repeat split; try done. Qed.

Lemma trail_suspend st : trail E st (suspend E st) [] [].
Proof.
  exists (if stop_called E (awaits st) then [StopCalled] else []).
  rewrite suspend_history, suspend_awaits, suspend_running.
  repeat split.
  - by destruct (stop_called E (awaits st)).
  - by destruct (stop_called E (awaits st)).
  - lia.
  - unfold suspend. by destruct (stop_called E (awaits st)).
  - intros Hquiet. rewrite (Hquiet (awaits st)) by lia. simpl. by rewrite andb_true_r.
Qed.

Lemma trail_sleep seconds st : trail E st (asyncio_sleep E seconds st) [] [].
Proof.
  unfold asyncio_sleep.
  eapply trail_after; [apply (trail_record (Sleep seconds)) | apply trail_suspend].
Qed.

Lemma trail_progress m st : trail E st (progress_callback m st) [] [].
Proof. apply (trail_record (Progress m)). Qed.

Lemma trail_skip_draws n st : trail E st (skip_draws n st) [] [].
Proof. by apply trail_same. Qed.

Lemma trail_append listing st : trail E st (append_listing listing st) [] [].
Proof. by apply trail_same. Qed.

Lemma trail_random_sleep a b st :
  trail E st (asyncio_sleep E (randint E a b st).1 (randint E a b st).2) [] [].
Proof.
  rewrite randint_state.
  eapply trail_before; [apply trail_skip_draws | apply trail_sleep].
Qed.

Lemma trail_get_search url user_agent st :
  trail E st (get E SearchPage url user_agent st).2 [url] [].
Proof.
  unfold get. simpl.
  eapply trail_after;
    [apply (trail_record (Get SearchPage url user_agent)) | apply trail_suspend].
Qed.

Lemma trail_get_detail url user_agent st :
  trail E st (get E DetailPage url user_agent st).2 [] [url].
Proof.
  unfold get. simpl.
  eapply trail_after;
    [apply (trail_record (Get DetailPage url user_agent)) | apply trail_suspend].
Qed.

Lemma trail_extract_listing_details url category_name st :
  trail E st (extract_listing_details E url category_name st).2 [] [url].
Proof.
  assert (trail E st (get E DetailPage url
                        (default "" (user_agents !! (rand E (draws st) mod 3)%nat))
                        (skip_draws 1 st)).2 [] [url]) as H.
  { eapply trail_before; [apply trail_skip_draws | apply trail_get_detail]. }
  unfold extract_listing_details, choice_user_agent, randbelow. simpl.
  unfold get in *. simpl in *. repeat case_match; exact H.
Qed.

Lemma trail_details_loop urls category_name listings st :
  trail E st (details_loop E urls category_name listings st).2 [] urls.
Proof.
  revert listings st. induction urls as [|url rest IH]; intros listings st; simpl.
  - apply trail_refl.
  - pose proof (trail_extract_listing_details url category_name st) as H.
    destruct (extract_listing_details E url category_name st) as [[l|] st1];
      (eapply trail_trans_eq; [exact H | apply IH | done | done]).
Qed.

Lemma trail_parse_listings_page html category_name st :
  trail E st (parse_listings_page E html category_name st).2
        [] (iterate E (discover (BeautifulSoup E html))).
Proof. unfold parse_listings_page. apply trail_details_loop. Qed.

Lemma trail_get_page_listings url category_name st :
  ∃ ds, trail E st (get_page_listings E url category_name st).2 [url] ds.
Proof.
  assert (trail E st (get E SearchPage url
                        (default "" (user_agents !! (rand E (draws st) mod 3)%nat))
                        (skip_draws 1 st)).2 [url] []) as H.
  { eapply trail_before; [apply trail_skip_draws | apply trail_get_search]. }
  unfold get_page_listings, choice_user_agent, randbelow. simpl.
  unfold get in *. simpl in *.
  repeat case_match; simpl;
    first
      [ exists []; eapply trail_after; [exact H | apply trail_progress]
      | exists []; eapply trail_after; [exact H |];
        eapply trail_after; [apply trail_progress | apply trail_sleep]
      | eexists; eapply trail_trans_eq;
        [exact H | apply trail_parse_listings_page | by rewrite app_nil_r | reflexivity] ].
Qed.

Lemma trail_listing_loop listings st : trail E st (listing_loop E listings st) [] [].
Proof.
  revert st. induction listings as [|listing rest IH]; intros st.
  - apply trail_refl.
  - rewrite listing_loop_cons. destruct (is_running st); cbn [negb]; [| apply trail_refl].
    eapply trail_after; [| apply IH].
    eapply trail_after; [| apply trail_random_sleep].
    eapply trail_after; [apply trail_append | apply trail_progress].
Qed.

(** From here on the owner never stops the scraper. *)
Hypothesis never_stopped : ∀ k, stop_called E k = false.

Lemma trail_running st st' ss ds :
  trail E st st' ss ds → is_running st' = is_running st.
Proof. intros (new & _ & _ & _ & _ & _ & Hr). apply Hr. intros k _. apply never_stopped. Qed.

Lemma trail_page_loop pages category_name base_url st :
  is_running st = true →
  ∃ ds,
    trail E st (page_loop E pages category_name base_url st)
          ((fun page => base_url +:+ "&page=" +:+ Str.of_Z page) <$> pages) ds.
Proof.
  revert st. induction pages as [|page rest IH]; intros st Hrun.
  - exists []. apply trail_refl.
  - rewrite page_loop_cons, Hrun. cbn [negb]. cbv zeta.
    destruct (trail_get_page_listings
                (base_url +:+ "&page=" +:+ Str.of_Z page) category_name st) as [ds1 H1].
    set (fetched := get_page_listings E _ category_name st) in *.
    assert (trail E st
              (asyncio_sleep E
                 (randint E 15 30
                    (listing_loop E fetched.1
                       (progress_callback (MsgPage page (length fetched.1) category_name)
                                          fetched.2))).1
                 (randint E 15 30
                    (listing_loop E fetched.1
                       (progress_callback (MsgPage page (length fetched.1) category_name)
                                          fetched.2))).2)
              [base_url +:+ "&page=" +:+ Str.of_Z page] ds1) as Hpage.
    { eapply trail_after; [| apply trail_random_sleep].
      eapply trail_after; [| apply trail_listing_loop].
      eapply trail_after; [exact H1 | apply trail_progress]. }
    destruct (IH _ (eq_trans (trail_running _ _ _ _ Hpage) Hrun)) as [ds2 H2].
    exists (ds1 ++ ds2). eapply trail_trans_eq; [exact Hpage | exact H2 | done | done].
Qed.

Lemma trail_scan_category category_name base_url st :
  is_running st = true →
  ∃ ds, trail E st (scan_category E category_name base_url st) (page_urls base_url) ds.
Proof.
  intros Hrun. unfold scan_category.
  destruct (trail_page_loop [1; 2; 3] category_name base_url
              (progress_callback (MsgScan category_name) st) Hrun) as [ds H].
  exists ds. eapply trail_before; [apply trail_progress | exact H].
Qed.

Lemma trail_category_loop categories_list st :
  is_running st = true →
  ∃ ds,
    trail E st (category_loop E categories_list st)
          (categories_list ≫= fun item => page_urls item.2) ds.
Proof.
  revert st. induction categories_list as [|[category_name base_url] rest IH];
    intros st Hrun.
  - exists []. apply trail_refl.
  - rewrite category_loop_cons, Hrun. cbn [negb]. cbv zeta.
    destruct (trail_scan_category category_name base_url st Hrun) as [ds1 H1].
    set (st1 := scan_category E category_name base_url st) in *.
    assert (trail E st
              (asyncio_sleep E (randint E 180 480 st1).1
                 (progress_callback (MsgPause ((randint E 180 480 st1).1 / 60))
                                    (randint E 180 480 st1).2))
              (page_urls base_url) ds1) as Hone.
    { rewrite randint_state.
      eapply trail_after; [| apply trail_sleep].
      eapply trail_after; [| apply trail_progress].
      eapply trail_after; [exact H1 | apply trail_skip_draws]. }
    destruct (IH _ (eq_trans (trail_running _ _ _ _ Hone) Hrun)) as [ds2 H2].
    exists (ds1 ++ ds2). eapply trail_trans_eq; [exact Hone | exact H2 | done | done].
Qed.

Lemma trail_cycle st :
  is_running st = true →
  ∃ order ds,
    order ≡ₚ categories ∧
    trail E (next_cycle st) (cycle E st)
          (order ≫= fun item => page_urls item.2) ds.
Proof.
  intros Hrun. rewrite cycle_unfold. cbv zeta.
  set (st2 := progress_callback (MsgCycle (current_cycle (next_cycle st))) (next_cycle st)).
  exists (shuffle_categories E st2).1.
  destruct (trail_category_loop (shuffle_categories E st2).1
              (shuffle_categories E st2).2 Hrun) as [ds H].
  exists ds. split; [apply shuffle_by_perm |].
  rewrite randint_state.
  eapply trail_after; [| apply trail_sleep].
  eapply trail_after; [| apply trail_progress].
  eapply trail_after; [| apply trail_skip_draws].
  eapply trail_before; [| exact H].
  eapply trail_before; [apply trail_progress |].
  unfold shuffle_categories. cbn [snd]. apply trail_skip_draws.
Qed.

Lemma cycle_keeps_running st :
  is_running st = true →
  is_running (cycle E st) = true ∧ current_cycle (cycle E st) = current_cycle st + 1.
Proof.
  intros Hrun. destruct (trail_cycle st Hrun) as (order & ds & _ & H).
  split.
  - by rewrite (trail_running _ _ _ _ H).
  - destruct H as (new & _ & _ & _ & _ & Hc & _). by rewrite Hc.
Qed.

Lemma continuous_scan_loop_goes_on cycles st :
  is_running st = true →
  ∃ st',
    continuous_scan_loop E cycles st = Running st' ∧
    is_running st' = true ∧
    current_cycle st' = current_cycle st + Z.of_nat cycles.
Proof.
  revert st. induction cycles as [|n IH]; intros st Hrun; simpl; rewrite Hrun.
  - exists st. repeat split; [done | lia].
  - destruct (cycle_keeps_running st Hrun) as [Hrun' Hc].
    destruct (IH _ Hrun') as (st' & Hloop & Hr & Hc').
    exists st'. repeat split; [done | done | lia].
Qed.

End Trail.

Lemma details_loop_length E urls category_name listings st :
  (length (details_loop E urls category_name listings st).1
   ≤ length listings + length urls)%nat.
Proof.
  revert listings st. induction urls as [|url rest IH]; intros listings st; simpl; [lia |].
  destruct (extract_listing_details E url category_name st) as [[l|] st1].
  - specialize (IH (listings ++ [l]) st1). rewrite length_app in IH. simpl in IH. lia.
  - specialize (IH listings st1). lia.
Qed.

(** X9: one detail request, and nothing else, whatever the answer: the
    scraper's only event is the request of the listing's URL; no message is
    emitted and no sleep taken, also when the request fails; the buffer is
    not touched. *)
Theorem X9_detail_request_is_single_and_silent
        (E : Env) (page_url category_name : string) (st : State) :
  let r := extract_listing_details E page_url category_name st in
  ∃ user_agent,
    user_agent ∈ user_agents ∧
    actions (history r.2) = Get DetailPage page_url user_agent :: actions (history st) ∧
    found_listings r.2 = found_listings st ∧
    awaits r.2 = S (awaits st).
Proof.
  cbv zeta.
  exists (default "" (user_agents !! (rand E (draws st) mod 3)%nat)).
  split.
  { pose proof (Nat.mod_upper_bound (rand E (draws st)) 3 ltac:(lia)) as Hlt.
    destruct (rand E (draws st) mod 3)%nat as [|[|[|n]]]; [| | | lia];
      simpl; repeat constructor. }
  unfold extract_listing_details, choice_user_agent, randbelow, get.
  cbn [fst snd length user_agents].
  repeat case_match; cbn [fst snd];
    rewrite suspend_actions, suspend_found, suspend_awaits; done.
Qed.

(** X10: [parse_listings_page] requests every discovered URL exactly once
    and no search page; it returns at most one listing per URL and leaves
    the buffer alone. *)
Theorem X10_every_discovered_url_is_requested_once
        (E : Env) (html category_name : string) (st : State) :
  let soup := BeautifulSoup E html in
  let r := parse_listings_page E html category_name st in
  ∃ new,
    history r.2 = new ++ history st ∧
    searches new = [] ∧
    details new ≡ₚ elements (discover soup) ∧
    NoDup (details new) ∧
    (length r.1 ≤ size (discover soup))%nat ∧
    found_listings r.2 = found_listings st.
Proof.
  cbv zeta.
  destruct (trail_parse_listings_page E html category_name st)
    as (new & Hh & Hs & Hd & _).
  exists new. rewrite Hd. repeat split; try done.
  - apply iterate_perm.
  - apply NoDup_iterate.
  - unfold parse_listings_page.
    pose proof (details_loop_length E (iterate E (discover (BeautifulSoup E html)))
                                    category_name [] st) as Hlen.
    simpl in Hlen. rewrite (Permutation_length (iterate_perm E _)) in Hlen. done.
  - unfold parse_listings_page.
    apply (details_loop_inv E (fun _ => True) (fun _ => True)); done.
Qed.

(** X11: an answer to a search request that is neither a page nor a rate
    limit (an exception of the request or of reading the body, or a status
    other than 200 and 429) gives an empty page: one request, one error
    message, no sleep, nothing buffered. *)
Theorem X11_failed_search_page_is_empty
        (E : Env) (page_url category_name : string) (st : State) (m : Msg) :
  failure_message page_url (session_get E (awaits st) page_url) = Some m →
  ∃ user_agent st',
    get_page_listings E page_url category_name st = ([], st') ∧
    actions (history st') =
      Progress m :: Get SearchPage page_url user_agent :: actions (history st) ∧
    found_listings st' = found_listings st ∧
    awaits st' = S (awaits st).
Proof.
  intros Hfail.
  unfold get_page_listings, choice_user_agent, randbelow, get.
  cbn [fst snd length user_agents record awaits skip_draws].
  unfold failure_message in Hfail.
  destruct (session_get E (awaits st) page_url) as [response | e].
  - destruct (status response =? 200).
    + destruct (text response) as [html | e]; [done |].
      injection Hfail as <-. eexists _, _. split; [reflexivity |].
      unfold progress_callback. simpl.
      rewrite suspend_actions, suspend_found, suspend_awaits. done.
    + destruct (status response =? 429); [done |].
      injection Hfail as <-. eexists _, _. split; [reflexivity |].
      unfold progress_callback. simpl.
      rewrite suspend_actions, suspend_found, suspend_awaits. done.
  - injection Hfail as <-. eexists _, _. split; [reflexivity |].
    unfold progress_callback. simpl.
    rewrite suspend_actions, suspend_found, suspend_awaits. done.
Qed.

Lemma X11_failed_search_page_is_empty_witness :
  ∃ user_agent st',
    get_page_listings failing "https://www.willhaben.at/s?rows=25&page=1"
                      "grundstueck-wien" Demo.running = ([], st') ∧
    actions (history st') =
      [Progress (MsgHttpError 500 "https://www.willhaben.at/s?rows=25&page=1");
       Get SearchPage "https://www.willhaben.at/s?rows=25&page=1" user_agent] ∧
    found_listings st' = [] ∧
    awaits st' = 1%nat.
Proof.
  exact (X11_failed_search_page_is_empty failing
           "https://www.willhaben.at/s?rows=25&page=1" "grundstueck-wien" Demo.running
           (MsgHttpError 500 "https://www.willhaben.at/s?rows=25&page=1") eq_refl).
Defined.

(** X12: only a stop ends the loop: when the owner never stops the
    scraper, the loop is still running after any number of passes, and the
    cycle counter has grown by that number. *)
Theorem X12_loop_runs_until_stopped (E : Env) (cycles : nat) (st : State) :
  (∀ k, stop_called E k = false) →
  is_running st = true →
  ∃ st',
    continuous_scan_loop E cycles st = Running st' ∧
    status_is_running (get_status st') = true ∧
    status_current_cycle (get_status st') = current_cycle st + Z.of_nat cycles.
Proof. intros Hquiet Hrun. by apply continuous_scan_loop_goes_on. Qed.

Lemma X12_loop_runs_until_stopped_witness :
  ∃ st',
    continuous_scan_loop Demo.quiet 2 Demo.running = Running st' ∧
    status_is_running (get_status st') = true ∧
    status_current_cycle (get_status st') = 2.
Proof.
  apply (X12_loop_runs_until_stopped Demo.quiet 2 Demo.running); reflexivity.
Defined.

(** X13: a pass that is not stopped requests pages 1, 2 and 3 of every
    category, category after category in the shuffled order: twelve search
    requests, each URL once; and it counts one cycle. *)
Theorem X13_pass_requests_every_category (E : Env) (st : State) :
  (∀ k, stop_called E k = false) →
  is_running st = true →
  ∃ new order,
    history (cycle E st) = new ++ history st ∧
    order ≡ₚ categories ∧
    searches new = (order ≫= fun item => page_urls item.2) ∧
    searches new ≡ₚ (categories ≫= fun item => page_urls item.2) ∧
    NoDup (searches new) ∧
    length (searches new) = 12%nat ∧
    current_cycle (cycle E st) = current_cycle st + 1.
Proof.
  intros Hquiet Hrun.
  destruct (trail_cycle E Hquiet st Hrun) as (order & ds & Hperm & new & Hh & Hs & _ & _ & Hc & _).
  exists new, order.
  assert (searches new ≡ₚ (categories ≫= fun item => page_urls item.2)) as Hall
    by (by rewrite Hs, Hperm).
  repeat split; try done.
  - rewrite Hall. apply (bool_decide_unpack _). by vm_compute.
  - by rewrite Hall.
Qed.

Lemma X13_pass_requests_every_category_witness :
  ∃ new order,
    history (cycle Demo.quiet Demo.running) = new ++ history Demo.running ∧
    order ≡ₚ categories ∧
    searches new = (order ≫= fun item => page_urls item.2) ∧
    searches new ≡ₚ (categories ≫= fun item => page_urls item.2) ∧
    NoDup (searches new) ∧
    length (searches new) = 12%nat ∧
    current_cycle (cycle Demo.quiet Demo.running) = current_cycle Demo.running + 1.
Proof.
  apply (X13_pass_requests_every_category Demo.quiet Demo.running); reflexivity.
Defined.

(** ** Exceptions of the extraction are swallowed *)

Lemma round_half_even_lower (n d : Z) : 0 < d → n / d ≤ Float.round_half_even n d.
Proof. intros Hd. unfold Float.round_half_even. repeat case_match; lia. Qed.

Lemma quotient_bound (p a A B : Z) :
  0 < a → 0 < A → 0 < B → B * A * a ≤ p → B ≤ p / (a * A).
Proof. intros Ha HA HB Hp. apply Z.div_le_lower_bound; nia. Qed.

Lemma log2_bound (p a K : Z) (k : Z) :
  0 < a → 0 ≤ k → K = 2 ^ k → K * a ≤ p → k + Z.log2 a ≤ Z.log2 p.
Proof.
  intros Ha Hk HK Hp.
  assert (0 < K) by (subst K; by apply Z.pow_pos_nonneg).
  pose proof (Z.log2_spec a Ha) as [Hal Hau].
  pose proof (Z.log2_nonneg a) as Hla.
  apply Z.log2_le_pow2; [nia |]. rewrite Z.pow_add_r by lia. rewrite <- HK. nia.
Qed.

(** A quotient of 2^1024 or more does not fit a float. *)
Lemma true_div_overflow (p a : Z) :
  0 < a → 2 ^ 1024 * a ≤ p → Float.true_div p a = Raise "OverflowError".
Proof.
  intros Ha Hp.
  pose proof (log2_bound p a (2 ^ 1024) 1024 Ha ltac:(done) eq_refl Hp) as Hlog.
  assert (2 ^ 53 ≤ p / (a * 2 ^ 971)) as Hq.
  { apply quotient_bound; [done | by apply Z.pow_pos_nonneg | by apply Z.pow_pos_nonneg |].
    rewrite <- Z.pow_add_r by done. exact Hp. }
  assert (p ≠ 0) as Hp0.
  { intros ->. rewrite Zdiv_0_l in Hq.
    assert (0 < 2 ^ 53) as Hpos by (by apply Z.pow_pos_nonneg).
    revert Hq Hpos. generalize (2 ^ 53). intros. lia. }
  pose proof (Z.log2_nonneg a) as Hla.
  unfold Float.true_div.
  destruct (Z.eqb_spec p 0); [done |].
  set (e0 := Z.log2 p - Z.log2 a - 53).
  set (e1 := if _ <=? _ then e0 + 1 else e0).
  assert (e1 = e0 ∨ e1 = e0 + 1) as He1 by (subst e1; case_match; auto).
  set (e := Z.max e1 (-1074)).
  assert (971 ≤ e0) by (subst e0; lia).
  destruct (Z.ltb_spec 971 e); [done |].
  assert (e = 971) as He by lia.
  rewrite He. cbn [orb]. rewrite Z.eqb_refl. cbn [andb].
  unfold Float.scaled_num, Float.scaled_den.
  change (971 <? 0) with false. cbv iota.
  pose proof (round_half_even_lower p (a * 2 ^ 971)) as Hm.
  destruct (Z.leb_spec (2 ^ 53) (Float.round_half_even p (a * 2 ^ 971))) as [|Hlt];
    [done |].
  exfalso. revert Hm Hq Hlt.
  assert (0 < a * 2 ^ 971) as Hd by (apply Z.mul_pos_pos; [done | by apply Z.pow_pos_nonneg]).
  revert Hd. generalize (Float.round_half_even p (a * 2 ^ 971)).
  generalize (p / (a * 2 ^ 971)). generalize (a * 2 ^ 971). generalize (2 ^ 53).
  intros. lia.
Qed.

(** X14: a page whose price is at least 2^1024 times its positive area
    yields no listing, private or not: the division overflows, and the
    [except] of [extract_listing_details] swallows the error. *)
Theorem X14_unrepresentable_price_per_area_drops_the_listing
        (E : Env) (page_url category_name : string) (st : State)
        (response : Response) (html : string) (a : Z) :
  session_get E (awaits st) page_url = Ok response →
  status response = 200 →
  text response = Ok html →
  extract_area (int_max_str_digits E) (BeautifulSoup E html) = Ok a →
  0 < a →
  2 ^ 1024 * a ≤ extract_price (int_max_str_digits E) (BeautifulSoup E html) →
  (extract_listing_details E page_url category_name st).1 = None.
Proof.
  intros Hget Hstatus Htext Harea Ha Hprice.
  unfold extract_listing_details, choice_user_agent, randbelow, get.
  cbn [fst snd length user_agents record awaits skip_draws].
  rewrite Hget, Hstatus, Htext. cbn [Z.eqb Pos.eqb negb].
  unfold details_of_page. rewrite Harea.
  unfold eur_per_m2_of. destruct (Z.ltb_spec 0 a); [| lia].
  rewrite true_div_overflow by done.
  by destruct (_ && _).
Qed.

Lemma X14_unrepresentable_price_per_area_drops_the_listing_witness :
  (extract_listing_details costly "https://www.willhaben.at/iad/immobilien/d/AAA"
                           "grundstueck-wien" Demo.running).1 = None.
Proof.
  apply (X14_unrepresentable_price_per_area_drops_the_listing costly
           "https://www.willhaben.at/iad/immobilien/d/AAA" "grundstueck-wien" Demo.running
           {| status := 200; text := Ok Demo.detail_html |} Demo.detail_html 75).
  - reflexivity.
  - reflexivity.
  - reflexivity.
  - by vm_compute.
  - lia.
  - by vm_compute.
Defined.

(** ** Where buffered listings come from *)

Lemma details_loop_urls E (Q : Listing → Prop) urls category_name listings st :
  (∀ u l st0 st1, u ∈ urls →
                  extract_listing_details E u category_name st0 = (Some l, st1) → Q l) →
  Forall Q listings →
  Forall Q (details_loop E urls category_name listings st).1.
Proof.
  revert listings st. induction urls as [|u rest IH]; intros listings st HQ Hall; simpl;
    [done |].
  destruct (extract_listing_details E u category_name st) as [[l|] st1] eqn:Hd.
  - apply IH; [intros; eapply HQ; [by right | done] |].
    apply Forall_app. split; [done |]. apply Forall_singleton.
    eapply HQ; [left | done].
  - apply IH; [intros; eapply HQ; [by right | done] | done].
Qed.

Lemma get_page_listings_urls E page_url category_name st :
  Forall (fun l => Substring listing_path (url l))
         (get_page_listings E page_url category_name st).1.
Proof.
  unfold get_page_listings, choice_user_agent, randbelow, get, parse_listings_page.
  cbn [fst snd length user_agents].
  repeat case_match; cbn [fst snd]; try by constructor.
  apply details_loop_urls; [| constructor].
  intros u l st0 st1 Hu Hd.
  apply elem_of_iterate, elem_of_discover in Hu as (selector & link & _ & _ & Hc & ->).
  apply extract_listing_details_some in Hd as (n & r & h & clock & _ & _ & _ & Hd).
  apply details_of_page_some in Hd as (-> & _).
  by apply substring_kept_url, contains_spec.
Qed.

Section PageBuffer.
Variable E : Env.
Variable P : Listing → Prop.
Hypothesis pages_P :
  ∀ url category_name st, Forall P (get_page_listings E url category_name st).1.

Lemma page_loop_pages pages category_name base_url st :
  Forall P (found_listings st) →
  Forall P (found_listings (page_loop E pages category_name base_url st)).
Proof.
  revert st. induction pages as [|page rest IH]; intros st Hst; [done |].
  rewrite page_loop_cons. destruct (is_running st); cbn [negb]; cbv zeta; [| done].
  apply IH. rewrite sleep_found, randint_state. cbn [found_listings skip_draws].
  apply listing_loop_inv; [apply pages_P |]. cbn [found_listings progress_callback record].
  destruct (get_page_listings_inv E (fun _ => True) (fun _ => True)
              ltac:(done) (base_url +:+ "&page=" +:+ Str.of_Z page) category_name st I)
    as [_ ->].
  done.
Qed.

Lemma category_loop_pages categories_list st :
  Forall P (found_listings st) →
  Forall P (found_listings (category_loop E categories_list st)).
Proof.
  revert st. induction categories_list as [|[category_name base_url] rest IH];
    intros st Hst; [done |].
  rewrite category_loop_cons. destruct (is_running st); cbn [negb]; cbv zeta; [| done].
  apply IH. rewrite sleep_found, randint_state.
  cbn [found_listings progress_callback record skip_draws].
  unfold scan_category. by apply page_loop_pages.
Qed.

Lemma start_247_scraping_pages cycles st :
  Forall P (found_listings st) →
  Forall P (found_listings (state_of (start_247_scraping E cycles st))).
Proof.
  assert (∀ n s, Forall P (found_listings s) →
                 Forall P (found_listings (state_of (continuous_scan_loop E n s)))) as Hloop.
  { induction n as [|n IH]; intros s Hs; simpl.
    - by destruct (is_running s).
    - destruct (is_running s); [| done]. apply IH.
      rewrite cycle_unfold. cbv zeta. rewrite sleep_found, randint_state.
      cbn [found_listings progress_callback record skip_draws].
      by apply category_loop_pages. }
  intros Hst. unfold start_247_scraping.
  destruct (is_running st); [done |]. by apply Hloop.
Qed.

End PageBuffer.

(** X15: the URL of every listing that a run buffers holds the listing
    path [/iad/immobilien/d/]: listings are built for discovered URLs
    only. *)
Theorem X15_buffered_urls_are_listing_urls (E : Env) (cycles : nat) (st : State) :
  Forall (fun l => Substring listing_path (url l)) (found_listings st) →
  Forall (fun l => Substring listing_path (url l))
         (found_listings (state_of (start_247_scraping E cycles st))).
Proof.
  apply start_247_scraping_pages. intros. apply get_page_listings_urls.
Qed.

Lemma X15_buffered_urls_are_listing_urls_witness :
  Forall (fun l => Substring listing_path (url l))
         (found_listings (state_of (start_247_scraping Demo.quiet 1 init)))
  ∧ url <$> head (found_listings (state_of (start_247_scraping Demo.quiet 1 init)))
    = Some "https://www.willhaben.at/iad/immobilien/d/AAA".
Proof.
  split; [| by vm_compute].
  apply (X15_buffered_urls_are_listing_urls Demo.quiet 1 init). constructor.
Defined.

(** ** Distance between search requests *)

Lemma spaced_app (r : bool) (l1 l2 : list Event) :
  spaced r (l1 ++ l2) = spaced r l1 ≫= fun r' => spaced r' l2.
Proof.
  revert r. induction l1 as [|e l1 IH]; intros r; [done |].
  destruct e as [m|s|[|] u a|]; simpl; try apply IH.
  destruct r; [apply IH | done].
Qed.

Lemma spaced_true_sleep (r : bool) (mid : list Event) :
  spaced r mid = Some true →
  r = true ∨ ∃ s, Sleep s ∈ mid ∧ 15 ≤ s.
Proof.
  revert r. induction mid as [|e mid IH]; intros r; simpl.
  - intros [= ->]. by left.
  - assert (spaced (r || long_sleep e) mid = Some true →
            r = true ∨ ∃ s, Sleep s ∈ e :: mid ∧ 15 ≤ s) as Hother.
    { intros [[Hr | Hl]%orb_prop | (s & Hin & Hs)]%IH.
      - by left.
      - right. destruct e as [m|s|k u a|]; try done.
        exists s. split; [left | by apply Z.leb_le].
      - right. exists s. split; [by right | done]. }
    destruct e as [m|s|[|] u a|]; try exact Hother.
    destruct r; [| done].
    intros [[=] | (s & Hin & Hs)]%IH. right. exists s. split; [by right | done].
Qed.

(** Between two search requests of a spaced sequence there is a long
    sleep. *)
Lemma spaced_between (r r' : bool) (a mid b : list Event) u1 x1 u2 x2 :
  spaced r (a ++ Get SearchPage u1 x1 :: mid ++ Get SearchPage u2 x2 :: b) = Some r' →
  ∃ s, Sleep s ∈ mid ∧ 15 ≤ s.
Proof.
  rewrite spaced_app. destruct (spaced r a) as [r1|]; [| done]. simpl.
  destruct r1; [| done].
  rewrite spaced_app. destruct (spaced false mid) as [r2|] eqn:Hmid; [| done]. simpl.
  destruct r2; [| done]. intros _.
  by destruct (spaced_true_sleep false mid Hmid) as [[=] | H].
Qed.

Lemma spacing_refl st r : spacing st st r r.
Proof. by exists []. Qed.

Lemma spacing_trans st1 st2 st3 r1 r2 r3 :
  spacing st1 st2 r1 r2 → spacing st2 st3 r2 r3 → spacing st1 st3 r1 r3.
Proof.
  intros (new1 & Hh1 & Hs1) (new2 & Hh2 & Hs2). exists (new2 ++ new1). split.
  - by rewrite Hh2, Hh1, app_assoc.
  - rewrite rev_app_distr, spaced_app, Hs1. done.
Qed.

Lemma spacing_same st st' r : history st' = history st → spacing st st' r r.
Proof. intros Hh. by exists []. Qed.

Lemma spacing_record e st r :
  search_url e = None → spacing st (record e st) r (r || long_sleep e).
Proof.
  intros He. exists [e]. split; [done |].
  destruct e as [m|s|[|] u a|]; done.
Qed.

Lemma spacing_search url user_agent st :
  spacing st (record (Get SearchPage url user_agent) st) true false.
Proof. by exists [Get SearchPage url user_agent]. Qed.

Section Spacing.
Variable E : Env.

Lemma spacing_suspend st r : spacing st (suspend E st) r r.
Proof.
  exists (if stop_called E (awaits st) then [StopCalled] else []).
  rewrite suspend_history. destruct (stop_called E (awaits st)); simpl;
    by rewrite ?orb_false_r.
Qed.

Lemma spacing_progress m st r : spacing st (progress_callback m st) r r.
Proof.
  pose proof (spacing_record (Progress m) st r eq_refl) as H.
  simpl in H. by rewrite orb_false_r in H.
Qed.

Lemma spacing_short_sleep seconds st r :
  seconds < 15 → spacing st (asyncio_sleep E seconds st) r r.
Proof.
  intros Hs. unfold asyncio_sleep.
  eapply spacing_trans; [| apply spacing_suspend].
  pose proof (spacing_record (Sleep seconds) st r eq_refl) as H.
  simpl in H. destruct (Z.leb_spec 15 seconds); [lia |]. by rewrite orb_false_r in H.
Qed.

Lemma spacing_long_sleep seconds st r :
  15 ≤ seconds → spacing st (asyncio_sleep E seconds st) r true.
Proof.
  intros Hs. unfold asyncio_sleep.
  eapply spacing_trans; [| apply spacing_suspend].
  pose proof (spacing_record (Sleep seconds) st r eq_refl) as H.
  simpl in H. destruct (Z.leb_spec 15 seconds); [| lia]. by rewrite orb_true_r in H.
Qed.

Lemma spacing_skip_draws n st r : spacing st (skip_draws n st) r r.
Proof. by apply spacing_same. Qed.

Lemma spacing_get_detail url user_agent st r :
  spacing st (get E DetailPage url user_agent st).2 r r.
Proof.
  unfold get. simpl. eapply spacing_trans; [| apply spacing_suspend].
  pose proof (spacing_record (Get DetailPage url user_agent) st r eq_refl) as H.
  simpl in H. by rewrite orb_false_r in H.
Qed.

Lemma spacing_get_search url user_agent st :
  spacing st (get E SearchPage url user_agent st).2 true false.
Proof.
  unfold get. simpl.
  eapply spacing_trans; [apply spacing_search | apply spacing_suspend].
Qed.

Lemma spacing_extract_listing_details url category_name st r :
  spacing st (extract_listing_details E url category_name st).2 r r.
Proof.
  assert (spacing st (get E DetailPage url
                        (default "" (user_agents !! (rand E (draws st) mod 3)%nat))
                        (skip_draws 1 st)).2 r r) as H.
  { eapply spacing_trans; [apply spacing_skip_draws | apply spacing_get_detail]. }
  unfold extract_listing_details, choice_user_agent, randbelow. simpl.
  unfold get in *. simpl in *. repeat case_match; exact H.
Qed.

Lemma spacing_details_loop urls category_name listings st r :
  spacing st (details_loop E urls category_name listings st).2 r r.
Proof.
  revert listings st. induction urls as [|url rest IH]; intros listings st; simpl.
  - apply spacing_refl.
  - pose proof (spacing_extract_listing_details url category_name st r) as H.
    destruct (extract_listing_details E url category_name st) as [[l|] st1];
      (eapply spacing_trans; [exact H | apply IH]).
Qed.

Lemma spacing_get_page_listings url category_name st :
  ∃ r, spacing st (get_page_listings E url category_name st).2 true r.
Proof.
  assert (spacing st (get E SearchPage url
                        (default "" (user_agents !! (rand E (draws st) mod 3)%nat))
                        (skip_draws 1 st)).2 true false) as H.
  { eapply spacing_trans; [apply spacing_skip_draws | apply spacing_get_search]. }
  unfold get_page_listings, choice_user_agent, randbelow, parse_listings_page. simpl.
  unfold get in *. simpl in *.
  repeat case_match; simpl;
    first
      [ exists false; eapply spacing_trans; [exact H | apply spacing_progress]
      | exists false; eapply spacing_trans; [exact H | apply spacing_details_loop]
      | exists true; eapply spacing_trans; [exact H |];
        eapply spacing_trans; [apply spacing_progress | by apply spacing_long_sleep] ].
Qed.

Lemma spacing_listing_loop listings st r : spacing st (listing_loop E listings st) r r.
Proof.
  revert st. induction listings as [|listing rest IH]; intros st.
  - apply spacing_refl.
  - rewrite listing_loop_cons. destruct (is_running st); cbn [negb]; [| apply spacing_refl].
    eapply spacing_trans; [| apply IH].
    rewrite randint_state.
    eapply spacing_trans; [| apply spacing_short_sleep].
    + eapply spacing_trans; [| apply spacing_skip_draws].
      eapply spacing_trans;
        [by apply (spacing_same st (append_listing listing st)) | apply spacing_progress].
    + match goal with
      | |- context [randint E 5 12 ?s] =>
          pose proof (randint_range E 5 12 s ltac:(lia))
      end. lia.
Qed.

Lemma spacing_page_loop pages category_name base_url st :
  spacing st (page_loop E pages category_name base_url st) true true.
Proof.
  revert st. induction pages as [|page rest IH]; intros st.
  - apply spacing_refl.
  - rewrite page_loop_cons. destruct (is_running st); cbn [negb]; cbv zeta;
      [| apply spacing_refl].
    eapply spacing_trans; [| apply IH].
    destruct (spacing_get_page_listings
                (base_url +:+ "&page=" +:+ Str.of_Z page) category_name st) as [r H].
    rewrite randint_state.
    eapply spacing_trans; [| apply (spacing_long_sleep _ _ r)].
    + eapply spacing_trans; [| apply spacing_skip_draws].
      eapply spacing_trans; [| apply spacing_listing_loop].
      eapply spacing_trans; [exact H | apply spacing_progress].
    + match goal with
      | |- context [randint E 15 30 ?s] =>
          pose proof (randint_range E 15 30 s ltac:(lia))
      end. lia.
Qed.

Lemma spacing_category_loop categories_list st :
  spacing st (category_loop E categories_list st) true true.
Proof.
  revert st. induction categories_list as [|[category_name base_url] rest IH]; intros st.
  - apply spacing_refl.
  - rewrite category_loop_cons. destruct (is_running st); cbn [negb]; cbv zeta;
      [| apply spacing_refl].
    eapply spacing_trans; [| apply IH].
    rewrite randint_state.
    eapply spacing_trans; [| apply (spacing_long_sleep _ _ true)].
    + eapply spacing_trans; [| apply spacing_progress].
      eapply spacing_trans; [| apply spacing_skip_draws].
      unfold scan_category.
      eapply spacing_trans; [apply spacing_progress | apply spacing_page_loop].
    + match goal with
      | |- context [randint E 180 480 ?s] =>
          pose proof (randint_range E 180 480 s ltac:(lia))
      end. lia.
Qed.

Lemma spacing_cycle st : spacing st (cycle E st) true true.
Proof.
  rewrite cycle_unfold. cbv zeta. rewrite randint_state.
  eapply spacing_trans; [| apply (spacing_long_sleep _ _ true)].
  - eapply spacing_trans; [| apply spacing_progress].
    eapply spacing_trans; [| apply spacing_skip_draws].
    eapply spacing_trans; [| apply spacing_category_loop].
    unfold shuffle_categories. cbn [snd].
    eapply spacing_trans; [| apply spacing_skip_draws].
    eapply spacing_trans; [apply (spacing_same st (next_cycle st)); done |].
    apply spacing_progress.
  - match goal with
    | |- context [randint E 1200 2700 ?s] =>
        pose proof (randint_range E 1200 2700 s ltac:(lia))
    end. lia.
Qed.

Lemma spacing_start_247_scraping cycles st :
  spacing st (state_of (start_247_scraping E cycles st)) true true.
Proof.
  assert (∀ n s, spacing s (state_of (continuous_scan_loop E n s)) true true) as Hloop.
  { induction n as [|n IH]; intros s; simpl.
    - destruct (is_running s); apply spacing_refl.
    - destruct (is_running s); [| apply spacing_refl].
      eapply spacing_trans; [apply spacing_cycle | apply IH]. }
  unfold start_247_scraping. destruct (is_running st); simpl.
  - apply spacing_progress.
  - eapply spacing_trans; [| apply Hloop].
    eapply spacing_trans;
      [by apply (spacing_same st (set_running true st)) | apply spacing_progress].
Qed.

(** X16: between any two search requests of a run the scraper sleeps at
    least once for 15 seconds or more (histories are newest first: [mid]
    is what happens between the two requests). *)
Theorem X16_search_requests_are_spaced (cycles : nat) (st : State) :
  ∃ new,
    history (state_of (start_247_scraping E cycles st)) = new ++ history st ∧
    ∀ later u2 x2 mid u1 x1 earlier,
      new = later ++ Get SearchPage u2 x2 :: mid ++ Get SearchPage u1 x1 :: earlier →
      ∃ s, Sleep s ∈ mid ∧ 15 ≤ s.
Proof.
  destruct (spacing_start_247_scraping cycles st) as (new & Hh & Hs).
  exists new. split; [done |].
  intros later u2 x2 mid u1 x1 earlier ->.
  rewrite rev_app_distr in Hs. simpl in Hs. rewrite rev_app_distr in Hs. simpl in Hs.
  rewrite <- !app_assoc in Hs. simpl in Hs.
  apply spaced_between in Hs as (s & Hin & Hs).
  exists s. split; [| done].
  apply list_elem_of_In. apply list_elem_of_In, in_rev in Hin. done.
Qed.

End Spacing.

Lemma X16_search_requests_are_spaced_witness :
  ∃ s, Sleep s ∈ take 8 (drop 112 (history (state_of (start_247_scraping Demo.quiet 1 init))))
       ∧ 15 ≤ s.
Proof.
  destruct (X16_search_requests_are_spaced Demo.quiet 1 init) as (new & Hh & Hspaced).
  rewrite app_nil_r in Hh. subst new.
  apply (Hspaced
           (take 111 (history (state_of (start_247_scraping Demo.quiet 1 init))))
           (default "" (categories.*2 !! 2%nat) +:+ "&page=2")
           (default "" (user_agents !! 0%nat))
           (take 8 (drop 112 (history (state_of (start_247_scraping Demo.quiet 1 init)))))
           (default "" (categories.*2 !! 2%nat) +:+ "&page=1")
           (default "" (user_agents !! 0%nat))
           (drop 121 (history (state_of (start_247_scraping Demo.quiet 1 init))))).
  vm_compute. reflexivity.
Defined.

(** ** Texts are stripped *)






